(** * kedro.io.parquet_local: [ParquetLocalDataSet]

    A shallow embedding of [ParquetLocalDataSet] (kedro/io/parquet_local.py)
    and of the collaborators it calls: pathlib paths, the local file system,
    the parquet engine and the versioning mixin of [kedro.io.core].

    The data set's methods are programs in a small state-and-exception monad
    over a [World]: the storage backend (file system, working directory,
    clock), the heap of Python dictionaries, and a ghost log of the calls made
    to the collaborators. *)

From Stdlib Require Import String Ascii List Lia.
From Stdlib.Strings Require Byte.
From stdpp Require Import base option list strings pretty gmap fin_maps.

Local Open Scope string_scope.
Local Open Scope list_scope.

(** ** Paths

    A path string and the [pathlib.Path] built from it are represented by the
    same value: the anchor (absolute or relative) and the list of components.
    [Path] and [str] are therefore identities. Components are names of
    directory entries; symbolic links and [..] are outside the model. *)

Record path := mk_path { anchored : bool; parts : list string }.

#[global] Instance path_eq_dec : EqDecision path.
Proof. solve_decision. Defined.

Definition Path (s : path) : path := s.
Definition str (p : path) : path := p.

(** [p.parent]: the parent of a path without components is the path itself. *)
Definition parent (p : path) : path :=
  mk_path (anchored p) (removelast (parts p)).

(** [p.name]: the final component, empty when there is none. *)
Definition name (p : path) : string := List.last (parts p) "".

(** [p / c] *)
Definition joinpath (p : path) (c : string) : path :=
  mk_path (anchored p) (parts p ++ [c]).

(** [p.absolute()]: prepends the working directory to a relative path and
    does nothing else. *)
Definition absolute_from (cwd : list string) (p : path) : path :=
  if anchored p then p else mk_path true (cwd ++ parts p).

(** ** File system *)

Definition bytes := list Byte.byte.

Inductive node :=
| File (content : bytes)
| Dir.

#[global] Instance byte_eq_dec : EqDecision Byte.byte := Byte.byte_eq_dec.

#[global] Instance node_eq_dec : EqDecision node.
Proof. unfold bytes. solve_decision. Defined.

(** The storage backend: entries keyed by the components of their absolute
    path (the root has no entry and is always a directory), the working
    directory, and the clock that save versions are generated from. *)
Record Backend := mk_backend {
  fs : gmap (list string) node;
  cwd : list string;
  clock : N
}.

Definition set_fs (b : Backend) (m : gmap (list string) node) : Backend :=
  mk_backend m (cwd b) (clock b).

(** The key under which the backend stores the entry a path denotes. *)
Definition location (b : Backend) (p : path) : list string :=
  parts (absolute_from (cwd b) p).

Definition lookup_node (b : Backend) (p : path) : option node :=
  match location b p with
  | [] => Some Dir
  | k => fs b !! k
  end.

(** [os.makedirs]-like walk used by [Path.mkdir(parents=True, exist_ok=True)]:
    every missing directory on the way is created, existing directories are
    accepted, a regular file on the way is an error. *)
Fixpoint mkdir_from (m : gmap (list string) node) (base rest : list string)
  : option (gmap (list string) node) :=
  match rest with
  | [] => Some m
  | c :: rest' =>
      let d := base ++ [c] in
      match m !! d with
      | Some (File _) => None
      | Some Dir => mkdir_from m d rest'
      | None => mkdir_from (<[d := Dir]> m) d rest'
      end
  end.

Definition mkdir_parents (b : Backend) (p : path) : option Backend :=
  set_fs b <$> mkdir_from (fs b) [] (location b p).

(** Opening a file for writing: the parent must be a directory and the path
    itself must not be one; the previous content, if any, is replaced. *)
Definition write_bytes (b : Backend) (p : path) (data : bytes) : option Backend :=
  match location b p with
  | [] => None
  | k =>
      match lookup_node b (parent (absolute_from (cwd b) p)), fs b !! k with
      | Some Dir, Some Dir => None
      | Some Dir, _ => Some (set_fs b (<[k := File data]> (fs b)))
      | _, _ => None
      end
  end.

Definition read_bytes (b : Backend) (p : path) : option bytes :=
  match lookup_node b p with
  | Some (File data) => Some data
  | _ => None
  end.

(** [Path.is_file] *)
Definition is_regular_file (b : Backend) (p : path) : bool :=
  match lookup_node b p with
  | Some (File _) => true
  | _ => false
  end.

(** Names of the sub-directories of a directory. *)
Definition child_dir (d : list string) (entry : list string * node) : option string :=
  match last entry.1, entry.2 with
  | Some c, Dir => if decide (entry.1 = d ++ [c]) then Some c else None
  | _, _ => None
  end.

Definition list_dirs (b : Backend) (dir : path) : list string :=
  omap (child_dir (location b dir)) (map_to_list (fs b)).

(** ** Versions, options and exceptions *)

(** [kedro.io.core.Version]: the [load] and [save] version of a data set,
    either of which may be [None]. *)
Record Version := mk_version { load : option string; save : option string }.

(** The values of the keyword arguments handed to the parquet engine. *)
Inductive pyval :=
| PyNone
| PyBool (b : bool)
| PyInt (z : Z)
| PyStr (s : string)
| PyList (l : list string).

(** A Python [dict] with string keys; dictionaries live in the heap and are
    referred to by their address. *)
Abbreviation options := (gmap string pyval).
Abbreviation loc := positive.

(** Modelled from the spec: the exceptions of [kedro.io.core] are not part of
    this file, which only names [DataSetError]. The cases are those of the
    error taxonomy: no version to load, load and save path disagreeing after a
    save (carrying both paths), the backend failing at a path, and the engine
    failing to encode or decode. *)
Inductive exn :=
| NoVersionFoundError (filepath : path)
| VersionConsistencyError (load_path save_path : path)
| StorageAccessError (p : path)
| CodecError.

(** Modelled from the spec: the clause [except DataSetError] catches the errors
    that the versioning layer raises itself; failures of the backend and of the
    engine are not [DataSetError]s. *)
Definition is_DataSetError (e : exn) : bool :=
  match e with
  | NoVersionFoundError _ | VersionConsistencyError _ _ => true
  | StorageAccessError _ | CodecError => false
  end.

Inductive outcome (A : Type) :=
| Ok (a : A)
| Raise (e : exn).
Arguments Ok {A} a.
Arguments Raise {A} e.

Definition succeeded {A} (r : outcome A) : bool :=
  match r with Ok _ => true | Raise _ => false end.

(** ** The world and the monad of the data set's methods *)

(** Ghost record of one call to a collaborator, with what it was given and
    what came of it. *)
Inductive event :=
| get_save_path_called (r : outcome path)
| mkdir_called (p : path) (created : bool)
| to_parquet_called (p : path) (engine : string) (kwargs : options)
    (written : option bytes)
| get_load_path_called (r : outcome path)
| check_paths_consistency_called (load_path save_path : path) (consistent : bool)
| read_parquet_called (p : path) (engine : string) (kwargs : options) (read : bool)
| is_file_called (p : path) (answer : bool).

Record World := mk_world {
  backend : Backend;
  heap : gmap loc options;
  log : list event
}.

Definition M (A : Type) : Type := World → outcome A * World.

Definition ret {A} (a : A) : M A := λ w, (Ok a, w).

Definition raise {A} (e : exn) : M A := λ w, (Raise e, w).

Definition bind {A B} (c : M A) (k : A → M B) : M B :=
  λ w, match c w with
       | (Ok a, w') => k a w'
       | (Raise e, w') => (Raise e, w')
       end.

(** [try: c] as a value: the outcome is handed to the continuation, which
    plays the [except] clauses and the code after the statement. *)
Definition try {A} (c : M A) : M (outcome A) :=
  λ w, let '(r, w') := c w in (Ok r, w').

Notation "x <- c1 ;; c2" := (bind c1 (λ x, c2))
  (at level 100, c1 at next level, right associativity).
Notation "c1 ;; c2" := (bind c1 (λ _, c2))
  (at level 100, right associativity).

Definition emit (ev : event) : M unit :=
  λ w, (Ok tt, mk_world (backend w) (heap w) (log w ++ [ev])).

Definition get_backend : M Backend := λ w, (Ok (backend w), w).

Definition put_backend (b : Backend) : M unit :=
  λ w, (Ok tt, mk_world b (heap w) (log w)).

(** A call into code that works on the backend only; it is logged with its
    outcome. *)
Definition call {A} (f : Backend → outcome A * Backend) (ev : outcome A → event)
  : M A :=
  b <- get_backend ;;
  let '(r, b') := f b in
  put_backend b' ;;
  emit (ev r) ;;
  match r with Ok a => ret a | Raise e => raise e end.

(** *** The heap of dictionaries *)

(** The content of the dictionary at an address. *)
Definition deref (h : gmap loc options) (l : loc) : options := default ∅ (h !! l).

Definition read_dict (l : loc) : M options := λ w, (Ok (deref (heap w) l), w).

(** A dictionary display [{...}] builds a new dictionary at a fresh address. *)
Definition new_dict (d : options) : M loc :=
  λ w, let l := fresh (dom (heap w)) in
       (Ok l, mk_world (backend w) (<[l := d]> (heap w)) (log w)).

(** [{**a, **b}]: the keys of [b] override those of [a]. *)
Definition dict_merge (a b : options) : options := b ∪ a.

(** *** pathlib and pandas on the backend *)

(** [p.absolute()] *)
Definition absolute (p : path) : M path :=
  b <- get_backend ;; ret (absolute_from (cwd b) p).

(** [p.mkdir(parents=True, exist_ok=True)] *)
Definition mkdir (p : path) : M unit :=
  b <- get_backend ;;
  match mkdir_parents b p with
  | Some b' => put_backend b' ;; emit (mkdir_called p true)
  | None => emit (mkdir_called p false) ;; raise (StorageAccessError p)
  end.

(** [Path(p).is_file()] *)
Definition is_file (p : path) : M bool :=
  b <- get_backend ;;
  let answer := is_regular_file b p in
  emit (is_file_called p answer) ;; ret answer.

(** ** Collaborators of the data set *)

(** The parquet engine behind [pd.read_parquet] and [DataFrame.to_parquet],
    selected by [engine] and steered by keyword arguments; [None] is the
    engine raising. *)
Class Codec (Payload : Type) := {
  encode : string → options → Payload → option bytes;
  decode : string → options → bytes → option Payload
}.

(** [kedro.io.core.FilepathVersionMixIn], whose methods the data set calls
    with its file path and version. They work on the backend. *)
Class FilepathVersionMixIn := {
  _get_load_path : path → option Version → Backend → outcome path * Backend;
  _get_save_path : path → option Version → Backend → outcome path * Backend;
  _check_paths_consistency : path → path → Backend → outcome unit * Backend
}.

(** ** The data set *)

Record ParquetLocalDataSet := mk_dataset {
  _filepath : path;
  _engine : string;
  _load_args : loc;
  _save_args : loc;
  _version : option Version
}.

(** [__init__(self, filepath, engine, load_args, save_args, version)];
    [load_args] and [save_args] are [None] or the address of the caller's
    dictionary. *)
Definition __init__ (filepath : path) (engine : string)
    (load_args save_args : option loc) (version : option Version)
  : M ParquetLocalDataSet :=
  default_save_args <- new_dict {[ "compression" := PyNone ]} ;;
  default_load_args <- new_dict ∅ ;;
  self_load_args <-
    match load_args with
    | Some given =>
        defaults <- read_dict default_load_args ;;
        supplied <- read_dict given ;;
        new_dict (dict_merge defaults supplied)
    | None => ret default_load_args
    end ;;
  self_save_args <-
    match save_args with
    | Some given =>
        defaults <- read_dict default_save_args ;;
        supplied <- read_dict given ;;
        new_dict (dict_merge defaults supplied)
    | None => ret default_save_args
    end ;;
  ret {| _filepath := filepath; _engine := engine;
         _load_args := self_load_args; _save_args := self_save_args;
         _version := version |}.

Section DataSet.
Context {Payload : Type} {codec : Codec Payload} {mixin : FilepathVersionMixIn}.

(** [pd.read_parquet(path, engine=engine, **kwargs)] *)
Definition read_parquet (p : path) (engine : string) (kwargs : options)
  : M Payload :=
  b <- get_backend ;;
  match read_bytes b p with
  | None =>
      emit (read_parquet_called p engine kwargs false) ;;
      raise (StorageAccessError p)
  | Some raw =>
      match decode engine kwargs raw with
      | None =>
          emit (read_parquet_called p engine kwargs false) ;;
          raise CodecError
      | Some data =>
          emit (read_parquet_called p engine kwargs true) ;; ret data
      end
  end.

(** [data.to_parquet(path, engine=engine, **kwargs)] *)
Definition to_parquet (data : Payload) (p : path) (engine : string)
    (kwargs : options) : M unit :=
  match encode engine kwargs data with
  | None =>
      emit (to_parquet_called p engine kwargs None) ;; raise CodecError
  | Some raw =>
      b <- get_backend ;;
      match write_bytes b p raw with
      | None =>
          emit (to_parquet_called p engine kwargs None) ;;
          raise (StorageAccessError p)
      | Some b' =>
          put_backend b' ;;
          emit (to_parquet_called p engine kwargs (Some raw))
      end
  end.

(** [self._get_load_path(self._filepath, self._version)] *)
Definition self_get_load_path (self : ParquetLocalDataSet) : M path :=
  call (_get_load_path (_filepath self) (_version self)) get_load_path_called.

(** [self._get_save_path(self._filepath, self._version)] *)
Definition self_get_save_path (self : ParquetLocalDataSet) : M path :=
  call (_get_save_path (_filepath self) (_version self)) get_save_path_called.

(** [self._check_paths_consistency(load_path, save_path)] *)
Definition self_check_paths_consistency (load_path save_path : path) : M unit :=
  call (_check_paths_consistency load_path save_path)
       (λ r, check_paths_consistency_called load_path save_path (succeeded r)).

Definition _load (self : ParquetLocalDataSet) : M Payload :=
  load_path <- self_get_load_path self ;;
  kwargs <- read_dict (_load_args self) ;;
  read_parquet load_path (_engine self) kwargs.

Definition _save (self : ParquetLocalDataSet) (data : Payload) : M unit :=
  save_path <- (s <- self_get_save_path self ;; ret (Path s)) ;;
  mkdir (parent save_path) ;;
  kwargs <- read_dict (_save_args self) ;;
  to_parquet data save_path (_engine self) kwargs ;;
  load_path <- (s <- self_get_load_path self ;; ret (Path s)) ;;
  load_abs <- absolute load_path ;;
  save_abs <- absolute save_path ;;
  self_check_paths_consistency (str load_abs) (str save_abs).

Definition _exists (self : ParquetLocalDataSet) : M bool :=
  resolved <- try (self_get_load_path self) ;;
  match resolved with
  | Raise e => if is_DataSetError e then ret false else raise e
  | Ok path => is_file (Path path)
  end.

End DataSet.

(** ** The versioning layer, from the specification *)

Module Versioning.

(** Modelled from the spec: [VersionToken.generate] of [kedro.io.core] is not
    part of this file. A token is derived from the current time, here the
    backend's clock (a count of time units) rendered at a fixed width, and
    the clock moves on. *)
Definition token_of_clock (n : N) : string :=
  let digits := pretty n in
  String.concat "" (repeat "0" (20 - String.length digits)) +:+ digits.

Definition generate (b : Backend) : string * Backend :=
  (token_of_clock (clock b), mk_backend (fs b) (cwd b) (N.succ (clock b))).

(** Modelled from the spec: the persisted layout of a versioned data set,
    [<dir>/<token>/<basename>], with the directory and the base name of the
    logical path. *)
Definition versioned_path (logical_path : path) (token : string) : path :=
  joinpath (joinpath (parent logical_path) token) (name logical_path).

(** The greatest token of a list in the lexicographic order of strings. *)
Definition greater (t : string) (best : option string) : option string :=
  match best with
  | None => Some t
  | Some m => Some (if String.leb m t then t else m)
  end.

Definition max_token (tokens : list string) : option string :=
  foldr greater None tokens.

(** Modelled from the spec: [resolve_for_load], the [_get_load_path] of the
    mixin. Without a version spec the logical path is used directly. With a
    pinned load token the path is built from it. Otherwise the version
    directories under [<dir>/] are listed and the maximum is taken; when
    there is none the resolution fails with [NoVersionFoundError]. *)
Definition resolve_for_load (logical_path : path) (version_spec : option Version)
    (b : Backend) : outcome path * Backend :=
  match version_spec with
  | None => (Ok logical_path, b)
  | Some v =>
      match load v with
      | Some token => (Ok (versioned_path logical_path token), b)
      | None =>
          match max_token (list_dirs b (parent logical_path)) with
          | Some token => (Ok (versioned_path logical_path token), b)
          | None => (Raise (NoVersionFoundError logical_path), b)
          end
      end
  end.

(** Modelled from the spec: [resolve_for_save], the [_get_save_path] of the
    mixin. Without a version spec the logical path is used directly. With a
    save token set it is used, otherwise a token is generated, and the path
    is built the same way as for a load. *)
Definition resolve_for_save (logical_path : path) (version_spec : option Version)
    (b : Backend) : outcome path * Backend :=
  match version_spec with
  | None => (Ok logical_path, b)
  | Some v =>
      match save v with
      | Some token => (Ok (versioned_path logical_path token), b)
      | None =>
          let '(token, b') := generate b in
          (Ok (versioned_path logical_path token), b')
      end
  end.

(** Modelled from the spec: the consistency check, the
    [_check_paths_consistency] of the mixin. It succeeds silently when the
    two paths are the same and fails with [VersionConsistencyError], which
    carries both, otherwise. *)
Definition check (load_path save_path : path) (b : Backend)
  : outcome unit * Backend :=
  if decide (load_path = save_path) then (Ok tt, b)
  else (Raise (VersionConsistencyError load_path save_path), b).

Definition mixin : FilepathVersionMixIn :=
  {| _get_load_path := resolve_for_load;
     _get_save_path := resolve_for_save;
     _check_paths_consistency := check |}.

End Versioning.

(** A versioning layer over a backend whose directories cannot be listed:
    every resolution fails with [StorageAccessError]. *)
Definition unlistable : FilepathVersionMixIn :=
  {| _get_load_path := λ p _ b, (Raise (StorageAccessError (parent p)), b);
     _get_save_path := λ p _ b, (Raise (StorageAccessError (parent p)), b);
     _check_paths_consistency := Versioning.check |}.

(** A parquet engine for byte strings, which stores them as they are. *)
Definition raw_codec : Codec bytes :=
  {| encode := λ _ _ data, Some data; decode := λ _ _ raw, Some raw |}.

(** ** Runs of the methods *)

(** The calls that a run from [w] to [w'] added to the log. *)
Definition emitted (w w' : World) : list event :=
  drop (length (log w)) (log w').

(** The place of a call in the sequence of a save, and whether it went well. *)
Definition stage (ev : event) : nat :=
  match ev with
  | get_save_path_called _ => 1
  | mkdir_called _ _ => 2
  | to_parquet_called _ _ _ _ => 3
  | get_load_path_called _ => 4
  | check_paths_consistency_called _ _ _ => 5
  | read_parquet_called _ _ _ _ => 6
  | is_file_called _ _ => 7
  end.

Definition went_well (ev : event) : bool :=
  match ev with
  | get_save_path_called r | get_load_path_called r => succeeded r
  | mkdir_called _ ok
  | check_paths_consistency_called _ _ ok
  | read_parquet_called _ _ _ ok => ok
  | to_parquet_called _ _ _ written => bool_decide (is_Some written)
  | is_file_called _ _ => true
  end.

(** A versioning layer whose load resolution and consistency check only read
    the backend. *)
Class ReadOnlyChecks (mixin : FilepathVersionMixIn) : Prop := {
  get_load_path_reads p v b : (_get_load_path p v b).2 = b;
  check_paths_reads l s b : (_check_paths_consistency l s b).2 = b
}.

Section SaveRun.
Context {Payload : Type} {codec : Codec Payload} {mixin : FilepathVersionMixIn}.
Variables (self : ParquetLocalDataSet) (data : Payload) (w : World).

Let engine := _engine self.
Let kwargs := deref (heap w) (_save_args self).
Let resolve_save := _get_save_path (_filepath self) (_version self).
Let resolve_load := _get_load_path (_filepath self) (_version self).

(** The runs of [_save] from [w], stage by stage: the outcome and the world
    each of them ends in. *)
Inductive save_run : outcome unit → World → Prop :=
| save_unresolved e b1 :
    resolve_save (backend w) = (Raise e, b1) →
    save_run (Raise e)
      (mk_world b1 (heap w) (log w ++ [get_save_path_called (Raise e)]))
| save_no_parent s b1 :
    resolve_save (backend w) = (Ok s, b1) →
    mkdir_parents b1 (parent s) = None →
    save_run (Raise (StorageAccessError (parent s)))
      (mk_world b1 (heap w)
         (log w ++ [get_save_path_called (Ok s); mkdir_called (parent s) false]))
| save_not_encoded s b1 b2 :
    resolve_save (backend w) = (Ok s, b1) →
    mkdir_parents b1 (parent s) = Some b2 →
    encode engine kwargs data = None →
    save_run (Raise CodecError)
      (mk_world b2 (heap w)
         (log w ++ [get_save_path_called (Ok s); mkdir_called (parent s) true;
                    to_parquet_called s engine kwargs None]))
| save_not_written s b1 b2 raw :
    resolve_save (backend w) = (Ok s, b1) →
    mkdir_parents b1 (parent s) = Some b2 →
    encode engine kwargs data = Some raw →
    write_bytes b2 s raw = None →
    save_run (Raise (StorageAccessError s))
      (mk_world b2 (heap w)
         (log w ++ [get_save_path_called (Ok s); mkdir_called (parent s) true;
                    to_parquet_called s engine kwargs None]))
| save_load_unresolved s b1 b2 raw b3 e b4 :
    resolve_save (backend w) = (Ok s, b1) →
    mkdir_parents b1 (parent s) = Some b2 →
    encode engine kwargs data = Some raw →
    write_bytes b2 s raw = Some b3 →
    resolve_load b3 = (Raise e, b4) →
    save_run (Raise e)
      (mk_world b4 (heap w)
         (log w ++ [get_save_path_called (Ok s); mkdir_called (parent s) true;
                    to_parquet_called s engine kwargs (Some raw);
                    get_load_path_called (Raise e)]))
| save_checked s b1 b2 raw b3 l b4 r b5 :
    resolve_save (backend w) = (Ok s, b1) →
    mkdir_parents b1 (parent s) = Some b2 →
    encode engine kwargs data = Some raw →
    write_bytes b2 s raw = Some b3 →
    resolve_load b3 = (Ok l, b4) →
    _check_paths_consistency
      (absolute_from (cwd b4) l) (absolute_from (cwd b4) s) b4 = (r, b5) →
    save_run r
      (mk_world b5 (heap w)
         (log w ++ [get_save_path_called (Ok s); mkdir_called (parent s) true;
                    to_parquet_called s engine kwargs (Some raw);
                    get_load_path_called (Ok l);
                    check_paths_consistency_called
                      (absolute_from (cwd b4) l) (absolute_from (cwd b4) s)
                      (succeeded r)])).

End SaveRun.

(** A versioning layer whose consistency check passes for equal paths only. *)
Class SoundChecks (mixin : FilepathVersionMixIn) : Prop := {
  check_paths_sound l s b :
    (_check_paths_consistency l s b).1 = Ok tt → l = s
}.

(** A call made on behalf of the save path [s]: the directory created is its
    parent, the file written is [s], the path checked is [s] made absolute. *)
Definition targets (s : path) (ev : event) : Prop :=
  match ev with
  | mkdir_called p _ => p = parent s
  | to_parquet_called p _ _ _ => p = s
  | check_paths_consistency_called _ save_path _ =>
      ∃ cwd, save_path = absolute_from cwd s
  | _ => True
  end.

(** ** Worlds to run the data set in *)

Module Example.

Definition out_parquet : path := mk_path false ["data"; "out.parquet"].

Definition home : list string := ["home"; "kedro"].

Definition df1 : bytes := [Byte.x50; Byte.x41; Byte.x52; Byte.x31].
Definition df2 : bytes := [Byte.x50; Byte.x41; Byte.x52; Byte.x32].

(** The dictionaries [{}] and [{"compression": None}] of a data set built
    without arguments. *)
Definition dicts : gmap loc options :=
  {[ 1%positive := {[ "compression" := PyNone ]}; 2%positive := ∅ ]}.

Definition dataset (version : option Version) : ParquetLocalDataSet :=
  {| _filepath := out_parquet; _engine := "auto";
     _load_args := 2%positive; _save_args := 1%positive;
     _version := version |}.

(** An empty backend. *)
Definition fresh_world : World := mk_world (mk_backend ∅ home 0) dicts [].

(** A backend on which [data/out.parquet] is the directory of a multipart
    parquet collection. *)
Definition multipart : gmap (list string) node :=
  {[ ["home"] := Dir;
     ["home"; "kedro"] := Dir;
     ["home"; "kedro"; "data"] := Dir;
     ["home"; "kedro"; "data"; "out.parquet"] := Dir;
     ["home"; "kedro"; "data"; "out.parquet"; "part.0.parquet"] := File df1;
     ["home"; "kedro"; "data"; "out.parquet"; "part.1.parquet"] := File df2 ]}.

Definition multipart_world : World := mk_world (mk_backend multipart home 0) dicts [].

End Example.

Module Versions.

(** A backend with three versions of [data/out.parquet], entered out of
    order, the latest of which holds [df2]; the clock is past all of them. *)
Definition three_versions : gmap (list string) node :=
  <[ ["home"; "kedro"; "data"; "00000000001548979200"; "out.parquet"] := File Example.df1 ]>
  (<[ ["home"; "kedro"; "data"; "00000000001548979200"] := Dir ]>
  (<[ ["home"; "kedro"; "data"; "00000000001551398400"; "out.parquet"] := File Example.df2 ]>
  (<[ ["home"; "kedro"; "data"; "00000000001551398400"] := Dir ]>
  (<[ ["home"; "kedro"; "data"; "00000000001546300800"; "out.parquet"] := File Example.df1 ]>
  (<[ ["home"; "kedro"; "data"; "00000000001546300800"] := Dir ]>
  (<[ ["home"; "kedro"; "data"] := Dir ]>
  (<[ ["home"; "kedro"] := Dir ]>
  (<[ ["home"] := Dir ]> ∅)))))))).

Definition world : World :=
  mk_world (mk_backend three_versions Example.home 1554076800) Example.dicts [].

Definition latest : Version := mk_version None None.

End Versions.

(** ** The data set after its construction *)

(** [o] is [defaults] overridden by the keys of [supplied]. *)
Definition overrides (defaults supplied o : options) : Prop :=
  ∀ k, o !! k = match supplied !! k with
                | Some v => Some v
                | None => defaults !! k
                end.

Section Later.
Context {Payload : Type} {codec : Codec Payload} {mixin : FilepathVersionMixIn}.

(** What can happen to the world [w1] in which a data set came to be, built
    from the world [w0]: its methods run, the backend changes under it, and
    the caller updates a dictionary that was there before the construction
    (such as the one it passed as [load_args]) or makes a new one. *)
Inductive later (w0 : World) (self : ParquetLocalDataSet) (w1 : World)
  : World → Prop :=
| later_built : later w0 self w1 w1
| later_load w : later w0 self w1 w → later w0 self w1 (_load self w).2
| later_save w data :
    later w0 self w1 w → later w0 self w1 (_save self data w).2
| later_exists w : later w0 self w1 w → later w0 self w1 (_exists self w).2
| later_backend w b :
    later w0 self w1 w → later w0 self w1 (mk_world b (heap w) (log w))
| later_caller_update w l d :
    later w0 self w1 w → l ∈ dom (heap w0) →
    later w0 self w1 (mk_world (backend w) (<[l := d]> (heap w)) (log w))
| later_caller_dict w d :
    later w0 self w1 w → later w0 self w1 (new_dict d w).2.

End Later.

Module Configured.

(** The caller's dictionaries: [load_args] at address 5, [save_args] at 6. *)
Definition columns : options := {[ "columns" := PyList ["col1"; "col2"] ]}.
Definition snappy : options := {[ "compression" := PyStr "snappy" ]}.

Definition world : World :=
  mk_world (mk_backend ∅ Example.home 0)
    {[ 5%positive := columns; 6%positive := snappy ]} [].

Definition built : outcome ParquetLocalDataSet * World :=
  __init__ Example.out_parquet "pyarrow" (Some 5%positive) (Some 6%positive)
    None world.

(** After the construction the caller empties the dictionary that it passed
    as [load_args]. *)
Definition meddled (w : World) : World :=
  mk_world (backend w) (<[ 5%positive := ∅ ]> (heap w)) (log w).

End Configured.

Module Pinned.

(** A data set that saves under the explicit token [v1] and loads the
    latest version. *)
Definition v1 : Version := mk_version None (Some "v1").

Definition self : ParquetLocalDataSet := Example.dataset (Some v1).

Definition saved : path := mk_path false ["data"; "v1"; "out.parquet"].

(** Two saves in a row, of [df1] and then of [df2]. *)
Definition first : outcome unit * World :=
  _save (codec := raw_codec) (mixin := Versioning.mixin)
    self Example.df1 Example.fresh_world.


End Pinned.

(** ** [_describe] *)



(** ** More on worlds *)

(** The holder of a reference changes the dictionary at [l] in place. *)
Definition update_dict (l : loc) (d : options) (w : World) : World :=
  mk_world (backend w) (<[l := d]> (heap w)) (log w).

(** [w'] is [w] with more dictionaries: the backend, the log and the
    dictionaries of [w] are as they were. *)
Definition extends (w w' : World) : Prop :=
  backend w' = backend w ∧ log w' = log w ∧
  ∀ l, l ∈ dom (heap w) → heap w' !! l = heap w !! l.

(** A versioning layer whose save resolution leaves the files and the working
    directory of the backend as they are. *)
Class SavePathKeepsFiles (mixin : FilepathVersionMixIn) : Prop := {
  get_save_path_fs p v b : fs (_get_save_path p v b).2 = fs b;
  get_save_path_cwd p v b : cwd (_get_save_path p v b).2 = cwd b
}.

Module Blocked.

(** A backend on which [data], the directory that [data/out.parquet] would go
    to, is a regular file. *)
Definition files : gmap (list string) node :=
  {[ ["home"] := Dir;
     ["home"; "kedro"] := Dir;
     ["home"; "kedro"; "data"] := File Example.df1 ]}.

Definition world : World :=
  mk_world (mk_backend files Example.home 0) Example.dicts [].

End Blocked.

Module Unencodable.

(** An engine that refuses every payload. *)
Definition codec : Codec bytes :=
  {| encode := λ _ _ _, None; decode := λ _ _ raw, Some raw |}.

End Unencodable.

(** * Properties *)

(** ** The order of version tokens *)

Lemma ascii_compare_refl (a : ascii) : Ascii.compare a a = Eq.
Proof. unfold Ascii.compare. apply N.compare_refl. Qed.

Lemma ascii_compare_lt_trans (a b c : ascii) :
  Ascii.compare a b = Lt → Ascii.compare b c = Lt → Ascii.compare a c = Lt.
Proof.
  unfold Ascii.compare. rewrite !N.compare_lt_iff. lia.
Qed.

Lemma string_compare_refl (s : string) : String.compare s s = Eq.
Proof.
  induction s as [|a s IH]; simpl; [done|]. by rewrite ascii_compare_refl.
Qed.

Lemma string_compare_lt_trans (s1 s2 s3 : string) :
  String.compare s1 s2 = Lt → String.compare s2 s3 = Lt →
  String.compare s1 s3 = Lt.
Proof.
  revert s2 s3. induction s1 as [|a s1 IH]; intros [|b s2] [|c s3]; simpl; try done.
  destruct (Ascii.compare a b) eqn:Hab; try done;
    destruct (Ascii.compare b c) eqn:Hbc; try done; intros H12 H23.
  - apply Ascii.compare_eq_iff in Hab, Hbc. subst.
    rewrite ascii_compare_refl. eauto.
  - apply Ascii.compare_eq_iff in Hab. subst. by rewrite Hbc.
  - apply Ascii.compare_eq_iff in Hbc. subst. by rewrite Hab.
  - by rewrite (ascii_compare_lt_trans _ _ _ Hab Hbc).
Qed.

Lemma string_leb_refl (s : string) : String.leb s s = true.
Proof. unfold String.leb. by rewrite string_compare_refl. Qed.

Lemma string_leb_trans (s1 s2 s3 : string) :
  String.leb s1 s2 = true → String.leb s2 s3 = true → String.leb s1 s3 = true.
Proof.
  unfold String.leb.
  destruct (String.compare s1 s2) eqn:H12; try done;
    destruct (String.compare s2 s3) eqn:H23; try done; intros _ _.
  - apply String.compare_eq_iff in H12, H23. subst. by rewrite string_compare_refl.
  - apply String.compare_eq_iff in H12. subst. by rewrite H23.
  - apply String.compare_eq_iff in H23. subst. by rewrite H12.
  - by rewrite (string_compare_lt_trans _ _ _ H12 H23).
Qed.

Lemma max_token_None (tokens : list string) :
  Versioning.max_token tokens = None ↔ tokens = [].
Proof.
  destruct tokens as [|t tokens]; [done|]. split; [|done].
  unfold Versioning.max_token. simpl.
  by destruct (foldr Versioning.greater None tokens).
Qed.

Lemma max_token_Some (tokens : list string) (m : string) :
  Versioning.max_token tokens = Some m →
  m ∈ tokens ∧ ∀ t, t ∈ tokens → String.leb t m = true.
Proof.
  revert m. induction tokens as [|t0 tokens IH]; intros m; [done|].
  unfold Versioning.max_token in *. simpl.
  destruct (foldr Versioning.greater None tokens) as [best|] eqn:Hbest; simpl.
  - destruct (IH best eq_refl) as [Hin Hmax].
    destruct (String.leb best t0) eqn:Hle; intros [= <-].
    + split; [left|]. intros t [->|Ht]%elem_of_cons; [apply string_leb_refl|].
      eapply string_leb_trans; eauto.
    + split; [by right|]. intros t [->|Ht]%elem_of_cons; [|by eauto].
      destruct (String.leb_total t0 best) as [?|Hc]; [done|congruence].
  - apply (max_token_None tokens) in Hbest as ->. intros [= <-].
    split; [left|]. intros t [->|Ht]%elem_of_cons; [apply string_leb_refl|].
    by apply elem_of_nil in Ht.
Qed.

(** ** Runs of [_save] *)

Lemma emitted_app (w w' : World) (evs : list event) :
  log w' = log w ++ evs → emitted w w' = evs.
Proof. unfold emitted. intros ->. by rewrite drop_app_length. Qed.

Section Runs.
Context {Payload : Type} {codec : Codec Payload} {mixin : FilepathVersionMixIn}.

Lemma _save_run (self : ParquetLocalDataSet) (data : Payload) (w : World) :
  save_run self data w (_save self data w).1 (_save self data w).2.
Proof.
  destruct w as [b0 h lg].
  unfold _save, self_get_save_path, self_get_load_path,
    self_check_paths_consistency, call, mkdir, to_parquet, absolute, read_dict,
    bind, ret, raise, emit, get_backend, put_backend, Path, str; simpl.
  destruct (_get_save_path _ _ b0) as [[s|e] b1] eqn:Hs; simpl.
  2:{ by apply save_unresolved. }
  rewrite <- ?app_assoc; simpl.
  destruct (mkdir_parents b1 (parent s)) as [b2|] eqn:Hmk; simpl.
  2:{ rewrite <- ?app_assoc; simpl. by apply save_no_parent. }
  destruct (encode _ _ data) as [raw|] eqn:Henc; simpl.
  2:{ rewrite <- ?app_assoc; simpl. by eapply save_not_encoded. }
  destruct (write_bytes b2 s raw) as [b3|] eqn:Hwr; simpl.
  2:{ rewrite <- ?app_assoc; simpl. by eapply save_not_written. }
  destruct (_get_load_path _ _ b3) as [[l|e] b4] eqn:Hl; simpl.
  2:{ rewrite <- ?app_assoc; simpl. by eapply save_load_unresolved. }
  destruct (_check_paths_consistency _ _ b4) as [r b5] eqn:Hc; simpl.
  rewrite <- ?app_assoc; simpl.
  destruct r as [[]|e]; simpl;
    eapply (save_checked self data (mk_world b0 h lg)); eassumption.
Qed.

End Runs.

(** ** The file system *)

Lemma location_cwd (b b' : Backend) (p : path) :
  cwd b' = cwd b → location b' p = location b p.
Proof. unfold location. by intros ->. Qed.

Lemma location_joinpath (b : Backend) (p : path) (c : string) :
  location b (joinpath p c) = location b p ++ [c].
Proof.
  unfold location, absolute_from, joinpath; simpl.
  destruct (anchored p); simpl; [done|]. by rewrite app_assoc.
Qed.

Lemma parent_joinpath (p : path) (c : string) : parent (joinpath p c) = p.
Proof.
  destruct p as [a l]. unfold parent, joinpath; simpl. by rewrite removelast_last.
Qed.

Lemma lookup_node_joinpath (b : Backend) (p : path) (c : string) :
  lookup_node b (joinpath p c) = fs b !! (location b p ++ [c]).
Proof.
  unfold lookup_node. rewrite location_joinpath.
  by destruct (location b p).
Qed.

Lemma location_absolute (b : Backend) (p : path) :
  location b (absolute_from (cwd b) p) = location b p.
Proof.
  unfold location, absolute_from. by destruct (anchored p) eqn:Ha; simpl; rewrite ?Ha.
Qed.

Lemma child_dir_Some (d : list string) (k : list string) (n : node) (t : string) :
  child_dir d (k, n) = Some t ↔ k = d ++ [t] ∧ n = Dir.
Proof.
  unfold child_dir; simpl. split.
  - destruct (last k) as [c|] eqn:Hlast; [|done].
    destruct n; [done|]. case_decide; [|done]. by intros [= <-].
  - intros [-> ->]. rewrite last_snoc. by rewrite decide_True.
Qed.

Lemma elem_of_list_dirs (b : Backend) (dir : path) (t : string) :
  t ∈ list_dirs b dir ↔ fs b !! (location b dir ++ [t]) = Some Dir.
Proof.
  unfold list_dirs. rewrite list_elem_of_omap. split.
  - intros [[k n] [Hin [-> ->]%child_dir_Some]]. by apply elem_of_map_to_list in Hin.
  - intros Hk. exists (location b dir ++ [t], Dir). split.
    + by apply elem_of_map_to_list.
    + by apply child_dir_Some.
Qed.

Lemma lookup_list_dirs (b : Backend) (dir : path) (t : string) :
  t ∈ list_dirs b dir ↔ lookup_node b (joinpath dir t) = Some Dir.
Proof. by rewrite elem_of_list_dirs, lookup_node_joinpath. Qed.

(** What [mkdir_from] leaves: entries that were there stay, the others are
    absent or new directories. *)
Lemma mkdir_from_lookup m base rest m' (k : list string) :
  mkdir_from m base rest = Some m' →
  m' !! k = m !! k ∨ (m !! k = None ∧ m' !! k = Some Dir).
Proof.
  revert m base. induction rest as [|c rest IH]; intros m base; simpl.
  - intros [= ->]. by left.
  - destruct (m !! (base ++ [c])) as [[raw|]|] eqn:Hd; [done| |].
    + apply IH.
    + intros Hrec. destruct (IH _ _ Hrec) as [Heq|[Hnone Hdir]].
      * destruct (decide (k = base ++ [c])) as [->|Hne].
        -- right. by rewrite Heq, lookup_insert_eq.
        -- left. by rewrite Heq, lookup_insert_ne.
      * destruct (decide (k = base ++ [c])) as [->|Hne].
        -- by rewrite lookup_insert_eq in Hnone.
        -- right. by rewrite lookup_insert_ne in Hnone.
Qed.

Lemma mkdir_from_keeps m base rest m' (k : list string) (n : node) :
  mkdir_from m base rest = Some m' → m !! k = Some n → m' !! k = Some n.
Proof.
  intros Hmk Hk. destruct (mkdir_from_lookup _ _ _ _ k Hmk) as [->|[? _]]; congruence.
Qed.

(** After [mkdir_from] every directory on the way exists. *)
Lemma mkdir_from_dirs m base rest m' (i : nat) :
  mkdir_from m base rest = Some m' → 0 < i ≤ length rest →
  m' !! (base ++ take i rest) = Some Dir.
Proof.
  revert m base i. induction rest as [|c rest IH]; intros m base i; simpl; [lia|].
  intros Hmk Hi. destruct i as [|i]; [lia|]. simpl.
  replace (base ++ c :: take i rest) with ((base ++ [c]) ++ take i rest)
    by (by rewrite <- app_assoc).
  destruct (m !! (base ++ [c])) as [[raw|]|] eqn:Hd; [done| |].
  - destruct i as [|i].
    + rewrite take_0, app_nil_r. eapply mkdir_from_keeps; eauto.
    + apply (IH _ _ _ Hmk). lia.
  - destruct i as [|i].
    + rewrite take_0, app_nil_r. eapply mkdir_from_keeps; eauto.
      by rewrite lookup_insert_eq.
    + apply (IH _ _ _ Hmk). lia.
Qed.

(** Where every directory on the way exists, [mkdir_from] changes nothing. *)
Lemma mkdir_from_present m base rest :
  (∀ i, 0 < i ≤ length rest → m !! (base ++ take i rest) = Some Dir) →
  mkdir_from m base rest = Some m.
Proof.
  revert base. induction rest as [|c rest IH]; intros base Hall; simpl; [done|].
  assert (Hd : m !! (base ++ [c]) = Some Dir).
  { specialize (Hall 1). simpl in Hall. rewrite take_0 in Hall. apply Hall. lia. }
  rewrite Hd. apply IH. intros i Hi. rewrite <- app_assoc. apply (Hall (S i)). simpl. lia.
Qed.

Lemma mkdir_from_idempotent m base rest m' :
  mkdir_from m base rest = Some m' → mkdir_from m' base rest = Some m'.
Proof. intros Hmk. apply mkdir_from_present. intros i Hi. by eapply mkdir_from_dirs. Qed.

(** The create of [Path.mkdir(parents=True, exist_ok=True)] is idempotent. *)
Lemma mkdir_parents_idempotent (b b' : Backend) (p : path) :
  mkdir_parents b p = Some b' → mkdir_parents b' p = Some b'.
Proof.
  unfold mkdir_parents. destruct (mkdir_from (fs b) [] (location b p)) as [m|] eqn:Hmk; [|done].
  simpl. intros [= <-]. unfold location; simpl. fold (location b p).
  rewrite (mkdir_from_idempotent _ _ _ _ Hmk). done.
Qed.

Lemma mkdir_parents_cwd (b b' : Backend) (p : path) :
  mkdir_parents b p = Some b' → cwd b' = cwd b.
Proof.
  unfold mkdir_parents. destruct (mkdir_from _ _ _); [|done]. by intros [= <-].
Qed.

Lemma write_bytes_fs (b b' : Backend) (p : path) (raw : bytes) :
  write_bytes b p raw = Some b' →
  location b p ≠ [] ∧ b' = set_fs b (<[location b p := File raw]> (fs b)).
Proof.
  unfold write_bytes. destruct (location b p) as [|c k] eqn:Hk; [done|].
  destruct (lookup_node _ _) as [[|]|]; try done.
  by destruct (fs b !! (c :: k)) as [[|]|]; intros [= <-].
Qed.

Lemma write_bytes_read (b b' : Backend) (p q : path) (raw : bytes) :
  write_bytes b p raw = Some b' → location b q = location b p →
  read_bytes b' q = Some raw.
Proof.
  intros [Hk ->]%write_bytes_fs Hq. unfold read_bytes, lookup_node.
  rewrite (location_cwd b) by done. rewrite Hq.
  destruct (location b p) as [|c k] eqn:Hloc; [done|]. simpl.
  by rewrite lookup_insert_eq.
Qed.

(** ** The versioning layer of the specification *)

Lemma resolve_for_load_reads (p : path) (v : option Version) (b : Backend) :
  (Versioning.resolve_for_load p v b).2 = b.
Proof.
  unfold Versioning.resolve_for_load.
  destruct v as [[[t|] sv]|]; simpl; try done.
  by destruct (Versioning.max_token _).
Qed.

Lemma check_reads (l s : path) (b : Backend) : (Versioning.check l s b).2 = b.
Proof. unfold Versioning.check. by case_decide. Qed.

#[global] Instance versioning_read_only : ReadOnlyChecks Versioning.mixin.
Proof. split; [apply resolve_for_load_reads|apply check_reads]. Qed.

#[global] Instance versioning_sound : SoundChecks Versioning.mixin.
Proof.
  split. intros l s b. simpl. unfold Versioning.check. by case_decide.
Qed.

(** Load resolution of the specification fails in one way only. *)
Lemma resolve_for_load_failure (p : path) (v : option Version) (b b' : Backend) e :
  Versioning.resolve_for_load p v b = (Raise e, b') → e = NoVersionFoundError p.
Proof.
  unfold Versioning.resolve_for_load.
  destruct v as [[[t|] sv]|]; simpl; try done.
  destruct (Versioning.max_token _); [done|]. by intros [= <- _].
Qed.

(** ** [_exists] *)

Section Exists.
Context {mixin : FilepathVersionMixIn}.

Lemma _exists_run (self : ParquetLocalDataSet) (w : World) :
  _exists self w =
    let '(resolved, b') :=
      _get_load_path (_filepath self) (_version self) (backend w) in
    let w' := mk_world b' (heap w) (log w ++ [get_load_path_called resolved]) in
    match resolved with
    | Ok p =>
        (Ok (is_regular_file b' p),
         mk_world b' (heap w)
           (log w' ++ [is_file_called p (is_regular_file b' p)]))
    | Raise e => if is_DataSetError e then (Ok false, w') else (Raise e, w')
    end.
Proof.
  destruct w as [b0 h lg].
  unfold _exists, try, self_get_load_path, call, is_file,
    bind, ret, raise, emit, get_backend, put_backend, Path; simpl.
  destruct (_get_load_path _ _ b0) as [[p|e] b'] eqn:Hl; simpl; [done|].
  by destruct (is_DataSetError e).
Qed.

End Exists.

(** C3: [_exists] resolves the load path first. When the resolution succeeds,
    the answer is that of the existence probe on the resolved path. When it
    fails with [NoVersionFoundError], the [DataSetError] of load resolution,
    the answer is false and nothing is raised. A failure that is not a
    [DataSetError], such as a storage access failure, is raised to the caller.
    The load resolution of the specification fails with
    [NoVersionFoundError] only. *)
Theorem exists_resolution_outcomes {mixin : FilepathVersionMixIn}
    (self : ParquetLocalDataSet) (w : World) :
  (let '(resolved, b') :=
     _get_load_path (_filepath self) (_version self) (backend w) in
   let w' := mk_world b' (heap w) (log w ++ [get_load_path_called resolved]) in
   match resolved with
   | Ok p =>
       (_exists self w).1 = Ok (is_regular_file b' p) ∧
       emitted w' (_exists self w).2 = [is_file_called p (is_regular_file b' p)]
   | Raise (NoVersionFoundError f) => _exists self w = (Ok false, w')
   | Raise (StorageAccessError q) => _exists self w = (Raise (StorageAccessError q), w')
   | Raise e =>
       _exists self w = if is_DataSetError e then (Ok false, w') else (Raise e, w')
   end) ∧
  (∀ p v b e b',
     Versioning.resolve_for_load p v b = (Raise e, b') →
     e = NoVersionFoundError p).
Proof.
  split; [|intros; by eapply resolve_for_load_failure].
  rewrite _exists_run.
  destruct (_get_load_path _ _ (backend w)) as [[p|e] b']; simpl.
  - split; [done|]. by apply emitted_app.
  - by destruct e.
Qed.

(** C10: [_exists] answers true only when the resolved load path is a regular
    file. When the resolved path is a directory, as for a multipart parquet
    collection, the answer is false whatever the directory holds. *)
Theorem exists_only_for_regular_files {mixin : FilepathVersionMixIn}
    (self : ParquetLocalDataSet) (w : World) (resolved : outcome path) (b' : Backend) :
  _get_load_path (_filepath self) (_version self) (backend w) = (resolved, b') →
  ((_exists self w).1 = Ok true ↔
     ∃ p raw, resolved = Ok p ∧ lookup_node b' p = Some (File raw)) ∧
  (∀ p, resolved = Ok p → lookup_node b' p = Some Dir →
        (_exists self w).1 = Ok false).
Proof.
  intros Hres. rewrite _exists_run, Hres. split.
  - destruct resolved as [p|e]; simpl.
    + unfold is_regular_file. split.
      * destruct (lookup_node b' p) as [[raw|]|] eqn:Hn; try done. eauto.
      * intros (q & raw & [= <-] & ->). done.
    + split; [by destruct (is_DataSetError e)|]. by intros (q & raw & [=] & _).
  - intros p -> Hdir. simpl. unfold is_regular_file. by rewrite Hdir.
Qed.

Lemma exists_only_for_regular_files_witness :
  lookup_node (backend Example.multipart_world) Example.out_parquet = Some Dir ∧
  read_bytes (backend Example.multipart_world)
    (joinpath Example.out_parquet "part.0.parquet") = Some Example.df1 ∧
  (_exists (mixin := Versioning.mixin) (Example.dataset None)
     Example.multipart_world).1 = Ok false.
Proof.
  split; [vm_compute; reflexivity|]. split; [vm_compute; reflexivity|].
  refine (proj2 (exists_only_for_regular_files (mixin := Versioning.mixin)
            (Example.dataset None) Example.multipart_world
            (Ok Example.out_parquet) (backend Example.multipart_world) _)
            Example.out_parquet _ _).
  - reflexivity.
  - reflexivity.
  - vm_compute; reflexivity.
Defined.

(** ** [_save] *)

Section Save.
Context {Payload : Type} {codec : Codec Payload} {mixin : FilepathVersionMixIn}.

Lemma save_run_heap (self : ParquetLocalDataSet) (data : Payload) (w : World) r w' :
  save_run self data w r w' → heap w' = heap w.
Proof. by destruct 1. Qed.

Lemma _save_heap (self : ParquetLocalDataSet) (data : Payload) (w : World) :
  heap (_save self data w).2 = heap w.
Proof. eapply save_run_heap, _save_run. Qed.

End Save.

(** C8: one run of [_save] resolves the save path once, as its first call, and
    every later call of the run works on the path that this resolution
    returned: the directory created is its parent, the file written is the
    path, the path checked is the path made absolute. With a fixed save token
    the save resolution of the specification returns the same path whenever
    it is called. *)
Theorem save_path_resolved_once {Payload : Type} {codec : Codec Payload}
    {mixin : FilepathVersionMixIn}
    (self : ParquetLocalDataSet) (data : Payload) (w : World) :
  (∃ rest,
     emitted w (_save self data w).2 =
       get_save_path_called
         (_get_save_path (_filepath self) (_version self) (backend w)).1 :: rest ∧
     Forall (λ ev, stage ev ≠ 1) rest ∧
     ∀ s, (_get_save_path (_filepath self) (_version self) (backend w)).1 = Ok s →
          Forall (targets s) rest) ∧
  (∀ p v token b1 b2,
     save v = Some token →
     (Versioning.resolve_for_save p (Some v) b1).1 =
       Ok (Versioning.versioned_path p token) ∧
     (Versioning.resolve_for_save p (Some v) b2).1 =
       (Versioning.resolve_for_save p (Some v) b1).1).
Proof.
  split.
  - destruct (_save_run self data w) as
      [e b1 Hs|s b1 Hs Hmk|s b1 b2 Hs Hmk Henc|s b1 b2 raw Hs Hmk Henc Hwr
      |s b1 b2 raw b3 e b4 Hs Hmk Henc Hwr Hl
      |s b1 b2 raw b3 l b4 r b5 Hs Hmk Henc Hwr Hl Hc];
      rewrite Hs; simpl;
      (erewrite emitted_app by (simpl; reflexivity));
      eexists; (split; [reflexivity|]);
      (split; [repeat constructor; simpl; lia|]);
      intros s' [= <-]; repeat constructor; simpl; eauto.
  - intros p v token b1 b2 Hv. unfold Versioning.resolve_for_save.
    by rewrite Hv.
Qed.

(** C5: one run of [_save] makes its calls in a fixed order, each at most
    once: the save resolution, the create of the parent, the write of the
    encoded payload, the load resolution, the consistency check. The first
    call that fails is the last call of the run and its failure is the outcome
    of the save; the save succeeds only when all five calls were made and went
    well. Whatever happens after a write that went through, the encoded
    payload is still at the save path when the run ends. The create of the
    parent is idempotent. *)
Theorem save_stages {Payload : Type} {codec : Codec Payload}
    {mixin : FilepathVersionMixIn} `{!ReadOnlyChecks mixin}
    (self : ParquetLocalDataSet) (data : Payload) (w : World) :
  let r := (_save self data w).1 in
  let w' := (_save self data w).2 in
  let evs := emitted w w' in
  (∃ n : nat, (1 ≤ n ≤ 5)%nat ∧ stage <$> evs = seq 1 n ∧
        (∀ i ev, evs !! i = Some ev → went_well ev = false →
                 S i = n ∧ ∃ e, r = Raise e) ∧
        (r = Ok tt ↔ n = 5 ∧ Forall (λ ev, went_well ev = true) evs)) ∧
  (∀ p engine kwargs raw,
     to_parquet_called p engine kwargs (Some raw) ∈ evs →
     encode engine kwargs data = Some raw ∧
     read_bytes (backend w') p = Some raw) ∧
  (∀ b p b', mkdir_parents b p = Some b' → mkdir_parents b' p = Some b').
Proof.
  intros r w' evs. subst r w' evs.
  split; [|split; [|intros b p b'; apply mkdir_parents_idempotent]].
  - destruct (_save_run self data w) as
      [e b1 Hs|s b1 Hs Hmk|s b1 b2 Hs Hmk Henc|s b1 b2 raw Hs Hmk Henc Hwr
      |s b1 b2 raw b3 e b4 Hs Hmk Henc Hwr Hl
      |s b1 b2 raw b3 l b4 r b5 Hs Hmk Henc Hwr Hl Hc];
      (erewrite emitted_app by (simpl; reflexivity)).
    + exists 1. split; [lia|]. split; [done|]. split.
      * intros [|i] ev [=] Hw; subst; eauto.
      * split; [done|]. intros [? _]; lia.
    + exists 2. split; [lia|]. split; [done|]. split.
      * intros [|[|i]] ev [=] Hw; subst; try done; eauto.
      * split; [done|]. intros [? _]; lia.
    + exists 3. split; [lia|]. split; [done|]. split.
      * intros [|[|[|i]]] ev [=] Hw; subst; try done; eauto.
      * split; [done|]. intros [? _]; lia.
    + exists 3. split; [lia|]. split; [done|]. split.
      * intros [|[|[|i]]] ev [=] Hw; subst; try done; eauto.
      * split; [done|]. intros [? _]; lia.
    + exists 4. split; [lia|]. split; [done|]. split.
      * intros [|[|[|[|i]]]] ev [=] Hw; subst; try done; eauto.
      * split; [done|]. intros [? _]; lia.
    + exists 5. split; [lia|]. split; [done|]. split.
      * intros [|[|[|[|[|i]]]]] ev [=] Hw; subst; try done.
        destruct r as [[]|e]; [done|]. eauto.
      * destruct r as [[]|e]; split; try done.
        -- intros _. split; [done|]. by repeat constructor.
        -- intros [_ Hall]. rewrite !Forall_cons in Hall. simpl in Hall.
           by destruct Hall as (_ & _ & _ & _ & ? & _).
  - intros p engine kwargs raw.
    destruct (_save_run self data w) as
      [e b1 Hs|s b1 Hs Hmk|s b1 b2 Hs Hmk Henc|s b1 b2 raw' Hs Hmk Henc Hwr
      |s b1 b2 raw' b3 e b4 Hs Hmk Henc Hwr Hl
      |s b1 b2 raw' b3 l b4 r b5 Hs Hmk Henc Hwr Hl Hc];
      (erewrite emitted_app by (simpl; reflexivity));
      rewrite ?elem_of_cons, elem_of_nil; intros Hin;
      destruct_or?; simplify_eq; simpl.
    + pose proof (get_load_path_reads (_filepath self) (_version self) b3) as Hro.
      rewrite Hl in Hro. simpl in Hro. subst b4.
      split; [done|]. by eapply write_bytes_read.
    + pose proof (get_load_path_reads (_filepath self) (_version self) b3) as Hro.
      rewrite Hl in Hro. simpl in Hro. subst b4.
      match type of Hc with
      | _check_paths_consistency ?la ?sa _ = _ =>
          pose proof (check_paths_reads la sa b3) as Hro
      end.
      rewrite Hc in Hro. simpl in Hro. subst b5.
      split; [done|]. by eapply write_bytes_read.
Qed.

Lemma save_stages_witness :
  let self := Example.dataset (Some (mk_version (Some "v0") (Some "v1"))) in
  let saved := Versioning.versioned_path Example.out_parquet "v1" in
  let run := _save (codec := raw_codec) (mixin := Versioning.mixin)
               self Example.df1 Example.fresh_world in
  run.1 = Raise (VersionConsistencyError
                   (mk_path true ["home"; "kedro"; "data"; "v0"; "out.parquet"])
                   (mk_path true ["home"; "kedro"; "data"; "v1"; "out.parquet"])) ∧
  read_bytes (backend run.2) saved = Some Example.df1.
Proof.
  intros self saved run. split; [vm_compute; reflexivity|].
  refine (proj2 (proj1 (proj2 (save_stages (codec := raw_codec)
            (mixin := Versioning.mixin) self Example.df1 Example.fresh_world))
            saved "auto" {[ "compression" := PyNone ]} Example.df1 _)).
  vm_compute. do 2 apply list_elem_of_further. apply list_elem_of_here.
Defined.

(** ** [_load] *)

Section Load.
Context {Payload : Type} {codec : Codec Payload} {mixin : FilepathVersionMixIn}.

Lemma _load_run (self : ParquetLocalDataSet) (w : World) :
  _load self w =
    let '(resolved, b') :=
      _get_load_path (_filepath self) (_version self) (backend w) in
    let kwargs := deref (heap w) (_load_args self) in
    let done (evs : list event) := mk_world b' (heap w) (log w ++ evs) in
    match resolved with
    | Raise e => (Raise e, done [get_load_path_called resolved])
    | Ok p =>
        let called ok :=
          done [get_load_path_called resolved;
                read_parquet_called p (_engine self) kwargs ok] in
        match read_bytes b' p with
        | None => (Raise (StorageAccessError p), called false)
        | Some raw =>
            match decode (_engine self) kwargs raw with
            | None => (Raise CodecError, called false)
            | Some data => (Ok data, called true)
            end
        end
    end.
Proof.
  destruct w as [b0 h lg].
  unfold _load, self_get_load_path, call, read_parquet, read_dict,
    bind, ret, raise, emit, get_backend, put_backend; simpl.
  destruct (_get_load_path _ _ b0) as [[p|e] b'] eqn:Hl; simpl; [|done].
  destruct (read_bytes b' p) as [raw|]; simpl.
  - destruct (decode _ _ raw); simpl; by rewrite <- app_assoc.
  - by rewrite <- app_assoc.
Qed.

Lemma _load_heap (self : ParquetLocalDataSet) (w : World) :
  heap (_load self w).2 = heap w.
Proof.
  rewrite _load_run.
  destruct (_get_load_path _ _ _) as [[p|e] b']; simpl; [|done].
  destruct (read_bytes b' p) as [raw|]; simpl; [|done].
  by destruct (decode _ _ raw).
Qed.

End Load.

(** C2: for a versioned data set, load resolution with a pinned load token
    builds [<dir>/<load_token>/<basename>] from it, whatever the backend
    holds. Without one it returns the path built from an existing version
    directory that no existing version directory exceeds in the order of
    tokens, and it fails with [NoVersionFoundError] when there is no version
    directory. [_load] reads from the path that the resolution returned. *)
Theorem load_path_resolution {Payload : Type} {codec : Codec Payload}
    (p : path) (v : Version) (b : Backend) :
  let exists_version token :=
    lookup_node b (joinpath (parent p) token) = Some Dir in
  (∀ token,
     parts (Versioning.versioned_path p token) = parts (parent p) ++ [token; name p] ∧
     anchored (Versioning.versioned_path p token) = anchored p) ∧
  (∀ token, load v = Some token →
     Versioning.resolve_for_load p (Some v) b =
       (Ok (Versioning.versioned_path p token), b)) ∧
  (load v = None →
     match (Versioning.resolve_for_load p (Some v) b).1 with
     | Ok resolved =>
         ∃ token, resolved = Versioning.versioned_path p token ∧
                  exists_version token ∧
                  ∀ t, exists_version t → String.leb t token = true
     | Raise e => e = NoVersionFoundError p ∧ ∀ t, ¬ exists_version t
     end) ∧
  (∀ self w,
     ∃ rest,
       emitted w (_load (mixin := Versioning.mixin) self w).2 =
         get_load_path_called
           (Versioning.resolve_for_load (_filepath self) (_version self)
              (backend w)).1 :: rest ∧
       ∀ q engine kwargs ok,
         read_parquet_called q engine kwargs ok ∈ rest →
         (Versioning.resolve_for_load (_filepath self) (_version self)
            (backend w)).1 = Ok q).
Proof.
  intros exists_version. split; [|split; [|split]].
  - intros token. unfold Versioning.versioned_path, joinpath, parent; simpl.
    by rewrite <- app_assoc.
  - intros token Hv. unfold Versioning.resolve_for_load. by rewrite Hv.
  - intros Hv. unfold Versioning.resolve_for_load. rewrite Hv.
    destruct (Versioning.max_token _) as [token|] eqn:Hmax; simpl.
    + apply max_token_Some in Hmax as [Hin Hmax].
      exists token. split; [done|]. split.
      * by apply lookup_list_dirs.
      * intros t Ht. apply Hmax. by apply lookup_list_dirs.
    + apply max_token_None in Hmax. split; [done|].
      intros t Ht. apply lookup_list_dirs in Ht. rewrite Hmax in Ht.
      by apply elem_of_nil in Ht.
  - intros self w. rewrite _load_run. simpl.
    destruct (Versioning.resolve_for_load _ _ (backend w)) as [[q|e] b'] eqn:Hl;
      simpl.
    + destruct (read_bytes b' q) as [raw|]; [destruct (decode _ _ raw)|];
        (erewrite emitted_app by (simpl; reflexivity));
        eexists; (split; [reflexivity|]);
        intros q' engine kwargs ok [[=]|Hin%elem_of_nil]%elem_of_cons;
        by subst.
    + (erewrite emitted_app by (simpl; reflexivity)).
      eexists; (split; [reflexivity|]).
      by intros q' engine kwargs ok Hin%elem_of_nil.
Qed.

Example load_latest_version :
  _get_load_path (FilepathVersionMixIn := Versioning.mixin)
    Example.out_parquet (Some Versions.latest) (backend Versions.world) =
    (Ok (mk_path false ["data"; "00000000001551398400"; "out.parquet"]),
     backend Versions.world) ∧
  (_load (codec := raw_codec) (mixin := Versioning.mixin)
     (Example.dataset (Some Versions.latest)) Versions.world).1 = Ok Example.df2.
Proof. split; vm_compute; reflexivity. Qed.

Example load_pinned_version :
  (_load (codec := raw_codec) (mixin := Versioning.mixin)
     (Example.dataset (Some (mk_version (Some "00000000001546300800") None)))
     Versions.world).1 = Ok Example.df1.
Proof. vm_compute; reflexivity. Qed.

Example load_no_version :
  (_load (codec := raw_codec) (mixin := Versioning.mixin)
     (Example.dataset (Some Versions.latest)) Example.fresh_world).1 =
    Raise (NoVersionFoundError Example.out_parquet).
Proof. vm_compute; reflexivity. Qed.

(** ** The consistency check of a save *)

Lemma absolute_from_location (b : Backend) (p : path) :
  absolute_from (cwd b) p = mk_path true (location b p).
Proof.
  unfold location, absolute_from. destruct p as [[] l]; by simpl.
Qed.

Lemma same_location (b : Backend) (p q : path) :
  absolute_from (cwd b) p = absolute_from (cwd b) q ↔ location b p = location b q.
Proof.
  rewrite !absolute_from_location. split; [by intros [=]|by intros ->].
Qed.



(** ** Saving, then loading *)

Lemma read_bytes_is_file (b : Backend) (p : path) (raw : bytes) :
  read_bytes b p = Some raw → is_regular_file b p = true.
Proof.
  unfold read_bytes, is_regular_file. by destruct (lookup_node b p) as [[|]|].
Qed.

Lemma write_bytes_cwd (b b' : Backend) (p : path) (raw : bytes) :
  write_bytes b p raw = Some b' → cwd b' = cwd b.
Proof. by intros [_ ->]%write_bytes_fs. Qed.

Section SaveOk.
Context {Payload : Type} {codec : Codec Payload} {mixin : FilepathVersionMixIn}.
Context `{!ReadOnlyChecks mixin}.

(** A save that succeeded went through all its stages. *)
Lemma save_ok (self : ParquetLocalDataSet) (data : Payload) (w w' : World) :
  _save self data w = (Ok tt, w') →
  ∃ s b1 b2 raw b3 l,
    _get_save_path (_filepath self) (_version self) (backend w) = (Ok s, b1) ∧
    mkdir_parents b1 (parent s) = Some b2 ∧
    encode (_engine self) (deref (heap w) (_save_args self)) data = Some raw ∧
    write_bytes b2 s raw = Some b3 ∧
    _get_load_path (_filepath self) (_version self) b3 = (Ok l, b3) ∧
    _check_paths_consistency
      (absolute_from (cwd b3) l) (absolute_from (cwd b3) s) b3 = (Ok tt, b3) ∧
    backend w' = b3 ∧ heap w' = heap w.
Proof.
  intros Hsave. pose proof (_save_run self data w) as Hrun.
  rewrite Hsave in Hrun. simpl in Hrun.
  inversion Hrun as
    [| | | | |s b1 b2 raw b3 l b4 r b5 Hs Hmk Henc Hwr Hl Hc Hr Hw'];
    subst.
  pose proof (get_load_path_reads (_filepath self) (_version self) b3) as Hro.
  rewrite Hl in Hro. simpl in Hro. subst b4.
  match type of Hc with
  | _check_paths_consistency ?la ?sa _ = _ =>
      pose proof (check_paths_reads la sa b3) as Hro
  end.
  rewrite Hc in Hro. simpl in Hro. subst b5.
  by exists s, b1, b2, raw, b3, l.
Qed.

End SaveOk.

(** C6: when the engine decodes what it encoded of a payload, with the options
    of the data set, to that payload again, a [_load] that follows a [_save]
    of the payload that succeeded returns the payload. *)
Theorem save_load_roundtrip {Payload : Type} {codec : Codec Payload}
    {mixin : FilepathVersionMixIn} `{!ReadOnlyChecks mixin} `{!SoundChecks mixin}
    (self : ParquetLocalDataSet) (x : Payload) (w w' : World) :
  (∀ raw,
     encode (_engine self) (deref (heap w) (_save_args self)) x = Some raw →
     decode (_engine self) (deref (heap w) (_load_args self)) raw = Some x) →
  _save self x w = (Ok tt, w') →
  (_load self w').1 = Ok x.
Proof.
  intros Hcodec Hsave.
  destruct (save_ok self x w w' Hsave)
    as (s & b1 & b2 & raw & b3 & l & Hs & Hmk & Henc & Hwr & Hl & Hc & Hb & Hh).
  rewrite _load_run, Hb, Hl. simpl. rewrite Hh.
  assert (Hloc : location b2 l = location b2 s).
  { rewrite !(location_cwd b3 b2) by (symmetry; by eapply write_bytes_cwd).
    apply same_location. eapply check_paths_sound. by rewrite Hc. }
  rewrite (write_bytes_read _ _ _ _ _ Hwr Hloc).
  by rewrite (Hcodec raw Henc).
Qed.

Lemma save_load_roundtrip_witness :
  let self := Example.dataset (Some Versions.latest) in
  let saved := _save (codec := raw_codec) (mixin := Versioning.mixin)
                 self Example.df2 Versions.world in
  saved.1 = Ok tt ∧
  (_load (codec := raw_codec) (mixin := Versioning.mixin) self saved.2).1 =
    Ok Example.df2.
Proof.
  intros self saved. split; [vm_compute; reflexivity|].
  apply (save_load_roundtrip (codec := raw_codec) (mixin := Versioning.mixin)
           self Example.df2 Versions.world saved.2).
  - intros raw. simpl. by intros [= <-].
  - vm_compute; reflexivity.
Defined.

(** ** A data set without a version *)

(** C7: for a data set built without a version, both resolutions return the
    logical path itself. [_save] writes at that path and [_load] reads from
    it. [_exists] answers false while nothing is at the path, and after a
    [_save] that succeeded it answers true, the encoded payload is at the
    logical path and [_load] decodes it. *)
Theorem unversioned_dataset {Payload : Type} {codec : Codec Payload}
    (self : ParquetLocalDataSet) (data : Payload) (w : World) :
  _version self = None →
  let file := _filepath self in
  (∀ b, Versioning.resolve_for_save file (_version self) b = (Ok file, b) ∧
        Versioning.resolve_for_load file (_version self) b = (Ok file, b)) ∧
  (∀ p engine kwargs written,
     to_parquet_called p engine kwargs written ∈
       emitted w (_save (mixin := Versioning.mixin) self data w).2 →
     p = file) ∧
  (∀ p engine kwargs ok,
     read_parquet_called p engine kwargs ok ∈
       emitted w (_load (mixin := Versioning.mixin) self w).2 →
     p = file) ∧
  (lookup_node (backend w) file = None →
   (_exists (mixin := Versioning.mixin) self w).1 = Ok false) ∧
  (∀ w', _save (mixin := Versioning.mixin) self data w = (Ok tt, w') →
     (_exists (mixin := Versioning.mixin) self w').1 = Ok true ∧
     ∃ raw,
       encode (_engine self) (deref (heap w) (_save_args self)) data = Some raw ∧
       read_bytes (backend w') file = Some raw ∧
       (_load (mixin := Versioning.mixin) self w').1 =
         match decode (_engine self) (deref (heap w) (_load_args self)) raw with
         | Some loaded => Ok loaded
         | None => Raise CodecError
         end).
Proof.
  intros Hv file. subst file. split; [|split; [|split; [|split]]].
  - intros b. by rewrite Hv.
  - intros p engine kwargs written.
    destruct (_save_run (mixin := Versioning.mixin) self data w) as
      [e b1 Hs|s b1 Hs Hmk|s b1 b2 Hs Hmk Henc|s b1 b2 raw Hs Hmk Henc Hwr
      |s b1 b2 raw b3 e b4 Hs Hmk Henc Hwr Hl
      |s b1 b2 raw b3 l b4 r b5 Hs Hmk Henc Hwr Hl Hc];
      (erewrite emitted_app by (simpl; reflexivity));
      rewrite ?elem_of_cons, !elem_of_nil; intros Hin;
      destruct_or?; simplify_eq;
      simpl in Hs; rewrite Hv in Hs;
      unfold Versioning.resolve_for_save in Hs; by simplify_eq.
  - intros p engine kwargs ok. rewrite _load_run. simpl. rewrite Hv. simpl.
    destruct (read_bytes _ _) as [raw|]; [destruct (decode _ _ raw)|];
      (erewrite emitted_app by (simpl; reflexivity));
      rewrite ?elem_of_cons, !elem_of_nil; intros Hin;
      destruct_or?; by simplify_eq.
  - intros Hnone. rewrite _exists_run. simpl. rewrite Hv. simpl.
    unfold is_regular_file. by rewrite Hnone.
  - intros w' Hsave.
    destruct (save_ok (mixin := Versioning.mixin) self data w w' Hsave)
      as (s & b1 & b2 & raw & b3 & l & Hs & Hmk & Henc & Hwr & Hl & Hc & Hb & Hh).
    simpl in Hs, Hl. rewrite Hv in Hs, Hl. simpl in Hs, Hl. simplify_eq.
    assert (Hread : read_bytes (backend w') (_filepath self) = Some raw)
      by (by eapply write_bytes_read).
    split.
    + rewrite _exists_run. simpl. rewrite Hv. simpl.
      by rewrite (read_bytes_is_file _ _ _ Hread).
    + exists raw. split; [done|]. split; [done|].
      rewrite _load_run. simpl. rewrite Hv. simpl. rewrite Hread, Hh.
      by destruct (decode _ _ raw).
Qed.

Lemma unversioned_dataset_witness :
  let self := Example.dataset None in
  let saved := _save (codec := raw_codec) (mixin := Versioning.mixin)
                 self Example.df1 Example.fresh_world in
  (_exists (mixin := Versioning.mixin) self Example.fresh_world).1 = Ok false ∧
  saved.1 = Ok tt ∧
  (_exists (mixin := Versioning.mixin) self saved.2).1 = Ok true ∧
  read_bytes (backend saved.2) Example.out_parquet = Some Example.df1.
Proof.
  intros self saved.
  pose proof (unversioned_dataset (codec := raw_codec) self Example.df1
                Example.fresh_world eq_refl) as (_ & _ & _ & Hbefore & Hafter).
  split; [apply Hbefore; vm_compute; reflexivity|].
  split; [vm_compute; reflexivity|].
  destruct (Hafter saved.2) as (Hexists & raw & Henc & Hread & _);
    [vm_compute; reflexivity|].
  split; [exact Hexists|].
  simpl in Henc. injection Henc as <-. exact Hread.
Defined.

(** ** Construction *)

Lemma dict_merge_overrides (defaults supplied : options) :
  overrides defaults supplied (dict_merge defaults supplied).
Proof.
  intros k. unfold dict_merge. rewrite lookup_union.
  destruct (supplied !! k), (defaults !! k); done.
Qed.

Lemma deref_insert_eq (h : gmap loc options) (l : loc) (d : options) :
  deref (<[l := d]> h) l = d.
Proof. unfold deref. by rewrite lookup_insert_eq. Qed.

Lemma deref_insert_ne (h : gmap loc options) (l l' : loc) (d : options) :
  l ≠ l' → deref (<[l := d]> h) l' = deref h l'.
Proof. intros Hne. unfold deref. by rewrite lookup_insert_ne. Qed.

Lemma fresh_not_live (h : gmap loc options) (l : loc) :
  l ∈ dom h → fresh (dom h) ≠ l.
Proof. intros Hl Heq. subst l. by apply (is_fresh (dom h)). Qed.

(** What [__init__] builds: the data set's dictionaries are new, and hold the
    defaults or the defaults overridden by what the caller's dictionary held
    at that time. *)
Lemma __init___run (filepath : path) (engine : string)
    (load_args save_args : option loc) (version : option Version) (w0 : World) :
  (∀ l, load_args = Some l → l ∈ dom (heap w0)) →
  (∀ l, save_args = Some l → l ∈ dom (heap w0)) →
  ∃ self w1 load_options save_options,
    __init__ filepath engine load_args save_args version w0 = (Ok self, w1) ∧
    _filepath self = filepath ∧ _engine self = engine ∧ _version self = version ∧
    backend w1 = backend w0 ∧ log w1 = log w0 ∧
    heap w1 !! _load_args self = Some load_options ∧
    heap w1 !! _save_args self = Some save_options ∧
    (_load_args self ∉ dom (heap w0)) ∧ (_save_args self ∉ dom (heap w0)) ∧
    match load_args with
    | None => load_options = ∅
    | Some l => overrides ∅ (deref (heap w0) l) load_options
    end ∧
    match save_args with
    | None => save_options = {[ "compression" := PyNone ]}
    | Some l =>
        overrides {[ "compression" := PyNone ]} (deref (heap w0) l) save_options
    end.
Proof.
  destruct w0 as [b h lg]. simpl. intros Hla Hsa.
  unfold __init__, new_dict, read_dict, bind, ret; simpl.
  set (d1 := {[ "compression" := PyNone ]} : options).
  set (l1 := fresh (dom h)).
  set (h1 := <[l1 := d1]> h).
  set (l2 := fresh (dom h1)).
  set (h2 := <[l2 := (∅ : options)]> h1).
  assert (Hl1 : l1 ∉ dom h) by apply is_fresh.
  assert (Hl2 : l2 ∉ dom h1) by apply is_fresh.
  assert (Hl21 : l2 ≠ l1).
  { intros Heq. apply Hl2. rewrite Heq. unfold h1. rewrite dom_insert_L. set_solver. }
  assert (Hl2h : l2 ∉ dom h).
  { intros Hin. apply Hl2. unfold h1. rewrite dom_insert_L. set_solver. }
  destruct load_args as [la|]; simpl.
  - set (l3 := fresh (dom h2)).
    set (d3 := dict_merge (deref h2 l2) (deref h2 la)).
    set (h3 := <[l3 := d3]> h2).
    assert (Hl3 : l3 ∉ dom h2) by apply is_fresh.
    assert (Hl3' : l3 ≠ l1 ∧ l3 ≠ l2 ∧ l3 ∉ dom h).
    { unfold h2, h1 in Hl3. rewrite !dom_insert_L in Hl3. set_solver. }
    destruct Hl3' as (Hl31 & Hl32 & Hl3h).
    assert (Hla' : la ∈ dom h) by eauto.
    assert (Hd3 : d3 = dict_merge ∅ (deref h la)).
    { unfold d3, h2, h1. rewrite deref_insert_eq.
      rewrite !deref_insert_ne by (intros ->; done). done. }
    destruct save_args as [sa|]; simpl.
    + set (l4 := fresh (dom h3)).
      set (d4 := dict_merge (deref h3 l1) (deref h3 sa)).
      assert (Hl4 : l4 ∉ dom h3) by apply is_fresh.
      assert (Hl4' : l4 ≠ l3 ∧ l4 ∉ dom h).
      { unfold h3, h2, h1 in Hl4. rewrite !dom_insert_L in Hl4. set_solver. }
      destruct Hl4' as (Hl43 & Hl4h).
      assert (Hsa' : sa ∈ dom h) by eauto.
      assert (Hd4 : d4 = dict_merge d1 (deref h sa)).
      { unfold d4, h3, h2, h1.
        rewrite (deref_insert_ne _ l3 l1), (deref_insert_ne _ l2 l1),
          deref_insert_eq by done.
        rewrite !deref_insert_ne by (intros ->; done). done. }
      eexists _, _, d3, d4. split; [reflexivity|]. simpl.
      repeat split; try done.
      * unfold h3. rewrite lookup_insert_ne by done. by rewrite lookup_insert_eq.
      * by rewrite lookup_insert_eq.
      * rewrite Hd3. apply dict_merge_overrides.
      * rewrite Hd4. apply dict_merge_overrides.
    + eexists _, _, d3, d1. split; [reflexivity|]. simpl.
      repeat split; try done.
      * unfold h3. by rewrite lookup_insert_eq.
      * unfold h3, h2, h1.
        do 2 (rewrite lookup_insert_ne by done). by rewrite lookup_insert_eq.
      * rewrite Hd3. apply dict_merge_overrides.
  - destruct save_args as [sa|]; simpl.
    + set (l4 := fresh (dom h2)).
      set (d4 := dict_merge (deref h2 l1) (deref h2 sa)).
      assert (Hl4 : l4 ∉ dom h2) by apply is_fresh.
      assert (Hl4' : l4 ≠ l2 ∧ l4 ∉ dom h).
      { unfold h2, h1 in Hl4. rewrite !dom_insert_L in Hl4. set_solver. }
      destruct Hl4' as (Hl42 & Hl4h).
      assert (Hsa' : sa ∈ dom h) by eauto.
      assert (Hd4 : d4 = dict_merge d1 (deref h sa)).
      { unfold d4, h2, h1.
        rewrite (deref_insert_ne _ l2 l1), deref_insert_eq by done.
        rewrite !deref_insert_ne by (intros ->; done). done. }
      eexists _, _, ∅, d4. split; [reflexivity|]. simpl.
      repeat split; try done.
      * unfold h2. rewrite lookup_insert_ne by done. by rewrite lookup_insert_eq.
      * by rewrite lookup_insert_eq.
      * rewrite Hd4. apply dict_merge_overrides.
    + eexists _, _, ∅, d1. split; [reflexivity|]. simpl.
      repeat split; try done.
      * unfold h2. by rewrite lookup_insert_eq.
      * unfold h2, h1. rewrite lookup_insert_ne by done. by rewrite lookup_insert_eq.
Qed.

Lemma _exists_heap {mixin : FilepathVersionMixIn}
    (self : ParquetLocalDataSet) (w : World) :
  heap (_exists self w).2 = heap w.
Proof.
  rewrite _exists_run.
  destruct (_get_load_path _ _ _) as [[p|e] b']; simpl; [done|].
  by destruct (is_DataSetError e).
Qed.

Section Options.
Context {Payload : Type} {codec : Codec Payload} {mixin : FilepathVersionMixIn}.

(** Nothing that happens later touches the dictionaries of the data set. *)
Lemma later_heap (w0 : World) (self : ParquetLocalDataSet) (w1 w : World)
    (l : loc) (d : options) :
  l ∉ dom (heap w0) → heap w1 !! l = Some d →
  later w0 self w1 w → heap w !! l = Some d.
Proof.
  intros Hnew Hl. induction 1 as [|w _ IH|w data _ IH|w _ IH|w b _ IH
                                  |w l' d' _ IH Hl'|w d' _ IH]; simpl.
  - done.
  - by rewrite _load_heap.
  - by rewrite _save_heap.
  - by rewrite _exists_heap.
  - done.
  - rewrite lookup_insert_ne; [done|]. by intros ->.
  - rewrite lookup_insert_ne; [done|].
    apply fresh_not_live. apply elem_of_dom. eauto.
Qed.

(** The keyword arguments of the calls that [_load] and [_save] make are the
    content of the data set's dictionaries. *)
Lemma _load_kwargs (self : ParquetLocalDataSet) (w : World) p engine kwargs ok :
  read_parquet_called p engine kwargs ok ∈ emitted w (_load self w).2 →
  kwargs = deref (heap w) (_load_args self).
Proof.
  rewrite _load_run.
  destruct (_get_load_path _ _ (backend w)) as [[q|e] b']; simpl.
  - destruct (read_bytes b' q) as [raw|]; [destruct (decode _ _ raw)|];
      (erewrite emitted_app by (simpl; reflexivity));
      rewrite ?elem_of_cons, !elem_of_nil; intros Hin;
      destruct_or?; by simplify_eq.
  - (erewrite emitted_app by (simpl; reflexivity)).
    rewrite ?elem_of_cons, !elem_of_nil; intros Hin;
      destruct_or?; by simplify_eq.
Qed.

Lemma _save_kwargs (self : ParquetLocalDataSet) (data : Payload) (w : World)
    p engine kwargs written :
  to_parquet_called p engine kwargs written ∈ emitted w (_save self data w).2 →
  kwargs = deref (heap w) (_save_args self).
Proof.
  destruct (_save_run self data w) as
    [e b1 Hs|s b1 Hs Hmk|s b1 b2 Hs Hmk Henc|s b1 b2 raw Hs Hmk Henc Hwr
    |s b1 b2 raw b3 e b4 Hs Hmk Henc Hwr Hl
    |s b1 b2 raw b3 l b4 r b5 Hs Hmk Henc Hwr Hl Hc];
    (erewrite emitted_app by (simpl; reflexivity));
    rewrite ?elem_of_cons, !elem_of_nil; intros Hin;
    destruct_or?; by simplify_eq.
Qed.

End Options.

(** C9: [__init__] computes the load and the save options once: the defaults
    (no option for a load, [compression=None] for a save) when [None] is
    passed, and otherwise the defaults overridden by the keys that the passed
    dictionary holds at that time, in dictionaries of the data set's own.
    Whatever happens later (calls of the methods, changes of the backend,
    the caller changing the dictionary it passed), those are the keyword
    arguments of every call that [_load] and [_save] make to the engine. *)
Theorem options_fixed_at_construction {Payload : Type} {codec : Codec Payload}
    {mixin : FilepathVersionMixIn}
    (filepath : path) (engine : string) (load_args save_args : option loc)
    (version : option Version) (w0 : World) :
  (∀ l, load_args = Some l → l ∈ dom (heap w0)) →
  (∀ l, save_args = Some l → l ∈ dom (heap w0)) →
  ∃ self w1 load_options save_options,
    __init__ filepath engine load_args save_args version w0 = (Ok self, w1) ∧
    match load_args with
    | None => load_options = ∅
    | Some l => overrides ∅ (deref (heap w0) l) load_options
    end ∧
    match save_args with
    | None => save_options = {[ "compression" := PyNone ]}
    | Some l =>
        overrides {[ "compression" := PyNone ]} (deref (heap w0) l) save_options
    end ∧
    ∀ w, later w0 self w1 w →
      deref (heap w) (_load_args self) = load_options ∧
      deref (heap w) (_save_args self) = save_options ∧
      (∀ p eng kwargs ok,
         read_parquet_called p eng kwargs ok ∈ emitted w (_load self w).2 →
         kwargs = load_options) ∧
      (∀ data p eng kwargs written,
         to_parquet_called p eng kwargs written ∈ emitted w (_save self data w).2 →
         kwargs = save_options).
Proof.
  intros Hla Hsa.
  destruct (__init___run filepath engine load_args save_args version w0 Hla Hsa)
    as (self & w1 & lo & so & Hinit & _ & _ & _ & _ & _ & Hlo & Hso
        & Hlnew & Hsnew & Hload & Hsave).
  exists self, w1, lo, so. split; [done|]. split; [done|]. split; [done|].
  intros w Hlater.
  assert (Hl : deref (heap w) (_load_args self) = lo).
  { unfold deref. by erewrite later_heap. }
  assert (Hs : deref (heap w) (_save_args self) = so).
  { unfold deref. by erewrite later_heap. }
  split; [done|]. split; [done|]. split.
  - intros p eng kwargs ok Hin. rewrite <- Hl. by eapply _load_kwargs.
  - intros data p eng kwargs written Hin. rewrite <- Hs. by eapply _save_kwargs.
Qed.

Lemma options_fixed_at_construction_witness :
  ∃ self w1,
    Configured.built = (Ok self, w1) ∧
    heap (Configured.meddled w1) !! 5%positive = Some ∅ ∧
    deref (heap (Configured.meddled w1)) (_load_args self) !! "columns" =
      Some (PyList ["col1"; "col2"]) ∧
    deref (heap (Configured.meddled w1)) (_save_args self) !! "compression" =
      Some (PyStr "snappy").
Proof.
  destruct (options_fixed_at_construction (codec := raw_codec)
              (mixin := Versioning.mixin)
              Example.out_parquet "pyarrow" (Some 5%positive) (Some 6%positive)
              None Configured.world)
    as (self & w1 & lo & so & Hinit & Hlo & Hso & Hlater).
  - intros l [= <-]. apply elem_of_dom. eexists. vm_compute. reflexivity.
  - intros l [= <-]. apply elem_of_dom. eexists. vm_compute. reflexivity.
  - exists self, w1. split; [exact Hinit|].
    split; [apply lookup_insert_eq|].
    destruct (Hlater (Configured.meddled w1)) as (Hl & Hs & _).
    { apply (later_caller_update (codec := raw_codec)), elem_of_dom.
      - apply later_built.
      - eexists. vm_compute. reflexivity. }
    rewrite Hl, Hs, (Hlo "columns"), (Hso "compression"). split; reflexivity.
Defined.

(** ** Saving a version again *)

Lemma write_bytes_inv (b b' : Backend) (p : path) (raw : bytes) :
  write_bytes b p raw = Some b' →
  location b p ≠ [] ∧
  lookup_node b (parent (absolute_from (cwd b) p)) = Some Dir ∧
  fs b !! location b p ≠ Some Dir ∧
  b' = set_fs b (<[location b p := File raw]> (fs b)).
Proof.
  unfold write_bytes. destruct (location b p) as [|c k] eqn:Hk; [done|].
  destruct (lookup_node _ _) as [[|]|]; try done.
  by destruct (fs b !! (c :: k)) as [[|]|]; intros [= <-].
Qed.





(** A write replaces no directory and makes none. *)
Lemma write_bytes_dirs (b b' : Backend) (p : path) (raw : bytes) (k : list string) :
  write_bytes b p raw = Some b' → fs b' !! k = Some Dir ↔ fs b !! k = Some Dir.
Proof.
  intros (_ & _ & Hnd & ->)%write_bytes_inv. simpl.
  destruct (decide (k = location b p)) as [->|Hne].
  - rewrite lookup_insert_eq. split; [done|]. by intros ?.
  - by rewrite lookup_insert_ne.
Qed.








(** ** Runs on the example worlds *)

Example exists_without_versions :
  (_exists (mixin := Versioning.mixin)
     (Example.dataset (Some Versions.latest)) Example.fresh_world).1 = Ok false.
Proof. vm_compute; reflexivity. Qed.

Example exists_with_versions :
  (_exists (mixin := Versioning.mixin)
     (Example.dataset (Some Versions.latest)) Versions.world).1 = Ok true.
Proof. vm_compute; reflexivity. Qed.

Example exists_on_unlistable_backend :
  (_exists (mixin := unlistable)
     (Example.dataset (Some Versions.latest)) Versions.world).1 =
    Raise (StorageAccessError (mk_path false ["data"])).
Proof. vm_compute; reflexivity. Qed.

(** A save under a pinned load version that is not the one saved: the bytes
    are written and the save fails. *)
Example save_against_older_pin :
  let self := Example.dataset (Some (mk_version (Some "00000000001546300800") None)) in
  let run := _save (codec := raw_codec) (mixin := Versioning.mixin)
               self Example.df2 Versions.world in
  run.1 = Raise (VersionConsistencyError
                   (mk_path true ["home"; "kedro"; "data"; "00000000001546300800"; "out.parquet"])
                   (mk_path true ["home"; "kedro"; "data"; "00000000001554076800"; "out.parquet"])) ∧
  read_bytes (backend run.2)
    (mk_path false ["data"; "00000000001554076800"; "out.parquet"]) = Some Example.df2.
Proof. split; vm_compute; reflexivity. Qed.

(** * Further properties of the data set *)

(** ** [_describe] *)


Example describe_then_change_options :
  let self := Example.dataset None in
  let saved := (_save (codec := raw_codec) (mixin := Versioning.mixin)
                  self Example.df1 Example.fresh_world).2 in
  let w := update_dict 2%positive Configured.columns saved in
  emitted w (_load (codec := raw_codec) (mixin := Versioning.mixin) self w).2 =
    [get_load_path_called (Ok Example.out_parquet);
     read_parquet_called Example.out_parquet "auto" Configured.columns true].
Proof. vm_compute; reflexivity. Qed.

(** ** More on [__init__] *)

Local Ltac init_facts :=
  repeat match goal with h := <[_ := _]> _ |- _ => subst h end;
  first
    [ by intros ->
    | let l := fresh "l" in
      intros l ?; by rewrite !lookup_insert_ne by (intros ->; done)
    | rewrite !dom_insert_L; set_solver ].

(** [__init__] always returns a data set with the attributes it was given.
    The caller's world is extended, not changed, and the two dictionaries of
    the data set are new, alive and distinct. *)
Lemma __init___world (filepath : path) (engine : string)
    (load_args save_args : option loc) (version : option Version) (w0 : World) :
  ∃ self w1,
    __init__ filepath engine load_args save_args version w0 = (Ok self, w1) ∧
    _filepath self = filepath ∧ _engine self = engine ∧ _version self = version ∧
    extends w0 w1 ∧
    (_load_args self ∉ dom (heap w0)) ∧ (_save_args self ∉ dom (heap w0)) ∧
    _load_args self ∈ dom (heap w1) ∧ _save_args self ∈ dom (heap w1) ∧
    _load_args self ≠ _save_args self.
Proof.
  destruct w0 as [b h lg]. unfold extends. simpl.
  unfold __init__, new_dict, read_dict, bind, ret; simpl.
  set (d1 := {[ "compression" := PyNone ]} : options).
  set (l1 := fresh (dom h)).
  set (h1 := <[l1 := d1]> h).
  set (l2 := fresh (dom h1)).
  set (h2 := <[l2 := (∅ : options)]> h1).
  assert (Hl1 : l1 ∉ dom h) by apply is_fresh.
  assert (Hl2 : l2 ∉ dom h1) by apply is_fresh.
  assert (Hl2' : l2 ≠ l1 ∧ l2 ∉ dom h).
  { unfold h1 in Hl2. rewrite dom_insert_L in Hl2. set_solver. }
  destruct Hl2' as (Hl21 & Hl2h).
  destruct load_args as [la|]; simpl.
  - set (d3 := dict_merge (deref h2 l2) (deref h2 la)).
    set (l3 := fresh (dom h2)).
    set (h3 := <[l3 := d3]> h2).
    assert (Hl3 : l3 ∉ dom h2) by apply is_fresh.
    assert (Hl3' : l3 ≠ l1 ∧ l3 ≠ l2 ∧ l3 ∉ dom h).
    { unfold h2, h1 in Hl3. rewrite !dom_insert_L in Hl3. set_solver. }
    destruct Hl3' as (Hl31 & Hl32 & Hl3h).
    destruct save_args as [sa|]; simpl.
    + set (d4 := dict_merge (deref h3 l1) (deref h3 sa)).
      set (l4 := fresh (dom h3)).
      assert (Hl4 : l4 ∉ dom h3) by apply is_fresh.
      assert (Hl4' : l4 ≠ l3 ∧ l4 ∉ dom h).
      { unfold h3, h2, h1 in Hl4. rewrite !dom_insert_L in Hl4. set_solver. }
      destruct Hl4' as (Hl43 & Hl4h).
      eexists _, _. split; [reflexivity|]. simpl.
      repeat split; try done; init_facts.
    + eexists _, _. split; [reflexivity|]. simpl.
      repeat split; try done; init_facts.
  - destruct save_args as [sa|]; simpl.
    + set (d4 := dict_merge (deref h2 l1) (deref h2 sa)).
      set (l4 := fresh (dom h2)).
      assert (Hl4 : l4 ∉ dom h2) by apply is_fresh.
      assert (Hl4' : l4 ≠ l2 ∧ l4 ∉ dom h).
      { unfold h2, h1 in Hl4. rewrite !dom_insert_L in Hl4. set_solver. }
      destruct Hl4' as (Hl42 & Hl4h).
      eexists _, _. split; [reflexivity|]. simpl.
      repeat split; try done; init_facts.
    + eexists _, _. split; [reflexivity|]. simpl.
      repeat split; try done; init_facts.
Qed.

(** X2: [__init__] never raises, whatever file path and engine it is given,
    and does no input or output: it returns a data set with the file path,
    engine and version passed, the backend and the log of calls are as before,
    and every dictionary that was there before, those passed as [load_args]
    and [save_args] included, holds what it held. *)
Theorem init_changes_nothing_of_the_caller (filepath : path) (engine : string)
    (load_args save_args : option loc) (version : option Version) (w0 : World) :
  ∃ self w1,
    __init__ filepath engine load_args save_args version w0 = (Ok self, w1) ∧
    _filepath self = filepath ∧ _engine self = engine ∧ _version self = version ∧
    backend w1 = backend w0 ∧ log w1 = log w0 ∧
    ∀ l, l ∈ dom (heap w0) → heap w1 !! l = heap w0 !! l.
Proof.
  destruct (__init___world filepath engine load_args save_args version w0)
    as (self & w1 & Hinit & Hf & He & Hv & (Hb & Hlog & Hheap) & _).
  by exists self, w1.
Qed.

(** X3: two data sets never share a dictionary of options, also when both
    are built with the defaults: the four dictionaries of two data sets built
    one after the other are distinct, so changing the options of one in place
    leaves the options of the other as they are. *)
Theorem datasets_share_no_options
    (filepath1 filepath2 : path) (engine1 engine2 : string)
    (load_args1 save_args1 load_args2 save_args2 : option loc)
    (version1 version2 : option Version)
    (w0 w1 w2 : World) (self1 self2 : ParquetLocalDataSet) :
  __init__ filepath1 engine1 load_args1 save_args1 version1 w0 = (Ok self1, w1) →
  __init__ filepath2 engine2 load_args2 save_args2 version2 w1 = (Ok self2, w2) →
  NoDup [_load_args self1; _save_args self1; _load_args self2; _save_args self2] ∧
  ∀ changed,
    let w := update_dict (_load_args self2) changed
               (update_dict (_save_args self2) changed w2) in
    deref (heap w) (_load_args self1) = deref (heap w1) (_load_args self1) ∧
    deref (heap w) (_save_args self1) = deref (heap w1) (_save_args self1).
Proof.
  intros H1 H2.
  destruct (__init___world filepath1 engine1 load_args1 save_args1 version1 w0)
    as (s1 & w1' & Hi1 & _ & _ & _ & _ & _ & _ & Hl1 & Hs1 & Hne1).
  rewrite H1 in Hi1. injection Hi1 as <- <-.
  destruct (__init___world filepath2 engine2 load_args2 save_args2 version2 w1)
    as (s2 & w2' & Hi2 & _ & _ & _ & (_ & _ & Hext) & Hl2 & Hs2 & _ & _ & Hne2).
  rewrite H2 in Hi2. injection Hi2 as <- <-.
  assert (Hll : _load_args self1 ≠ _load_args self2) by (by intros Heq; rewrite Heq in Hl1).
  assert (Hls : _load_args self1 ≠ _save_args self2) by (by intros Heq; rewrite Heq in Hl1).
  assert (Hsl : _save_args self1 ≠ _load_args self2) by (by intros Heq; rewrite Heq in Hs1).
  assert (Hss : _save_args self1 ≠ _save_args self2) by (by intros Heq; rewrite Heq in Hs1).
  split.
  - repeat (apply NoDup_cons; split); try apply NoDup_nil_2;
      rewrite ?elem_of_cons, elem_of_nil; intros Hx; destruct_or?; congruence.
  - intros changed w. subst w. unfold update_dict, deref; simpl.
    rewrite !lookup_insert_ne by done. by rewrite !Hext.
Qed.

Lemma datasets_share_no_options_witness :
  let first := __init__ Example.out_parquet "auto" None None None Configured.world in
  ∃ self1 w1 self2 w2,
    first = (Ok self1, w1) ∧
    __init__ Example.out_parquet "auto" None None None w1 = (Ok self2, w2) ∧
    NoDup [_load_args self1; _save_args self1; _load_args self2; _save_args self2].
Proof.
  intros first. eexists _, _, _, _.
  split; [vm_compute; reflexivity|]. split; [vm_compute; reflexivity|].
  refine (proj1 (datasets_share_no_options
            Example.out_parquet Example.out_parquet "auto" "auto"
            None None None None None None Configured.world _ _ _ _ _ _));
    vm_compute; reflexivity.
Defined.

(** X4: the load options of a data set are exactly what the caller's
    [load_args] held at construction, nothing when it was [None]. Its save
    options always name [compression]: the caller's value when its [save_args]
    had one, [None] otherwise; every other key is the caller's. Hence
    [_save], right after the construction, always hands a [compression]
    argument to the engine. *)
Theorem save_options_name_compression {Payload : Type} {codec : Codec Payload}
    {mixin : FilepathVersionMixIn}
    (filepath : path) (engine : string) (load_args save_args : option loc)
    (version : option Version) (w0 w1 : World) (self : ParquetLocalDataSet) :
  (∀ l, load_args = Some l → l ∈ dom (heap w0)) →
  (∀ l, save_args = Some l → l ∈ dom (heap w0)) →
  __init__ filepath engine load_args save_args version w0 = (Ok self, w1) →
  let supplied := from_option (deref (heap w0)) ∅ save_args in
  deref (heap w1) (_load_args self) = from_option (deref (heap w0)) ∅ load_args ∧
  deref (heap w1) (_save_args self) !! "compression" =
    Some (default PyNone (supplied !! "compression")) ∧
  (∀ k, k ≠ "compression" →
        deref (heap w1) (_save_args self) !! k = supplied !! k) ∧
  (∀ data p eng kwargs written,
     to_parquet_called p eng kwargs written ∈ emitted w1 (_save self data w1).2 →
     is_Some (kwargs !! "compression")).
Proof.
  intros Hla Hsa Hinit supplied.
  destruct (__init___run filepath engine load_args save_args version w0 Hla Hsa)
    as (self' & w1' & lo & so & Hinit' & _ & _ & _ & _ & _ & Hlo & Hso
        & _ & _ & Hload & Hsave).
  rewrite Hinit in Hinit'. injection Hinit' as <- <-.
  assert (Hl : deref (heap w1) (_load_args self) = lo) by (unfold deref; by rewrite Hlo).
  assert (Hs : deref (heap w1) (_save_args self) = so) by (unfold deref; by rewrite Hso).
  assert (Hcomp : so !! "compression" = Some (default PyNone (supplied !! "compression"))).
  { subst supplied. destruct save_args as [sa|]; simpl.
    - rewrite (Hsave "compression"). by destruct (deref (heap w0) sa !! "compression").
    - by rewrite Hsave. }
  rewrite Hl, Hs. split; [|split; [done|split]].
  - destruct load_args as [la|]; simpl; [|done].
    apply map_eq. intros k. rewrite (Hload k).
    by destruct (deref (heap w0) la !! k).
  - intros k Hk. subst supplied. destruct save_args as [sa|]; simpl.
    + rewrite (Hsave k). destruct (deref (heap w0) sa !! k); [done|].
      by apply lookup_singleton_ne.
    + rewrite Hsave, lookup_empty. by apply lookup_singleton_ne.
  - intros data p eng kwargs written Hin. apply _save_kwargs in Hin.
    rewrite Hin, Hs, Hcomp. eauto.
Qed.

Lemma save_options_name_compression_witness :
  ∃ self w1,
    Configured.built = (Ok self, w1) ∧
    deref (heap w1) (_load_args self) = Configured.columns ∧
    deref (heap w1) (_save_args self) !! "compression" = Some (PyStr "snappy").
Proof.
  eexists _, _. split; [vm_compute; reflexivity|].
  refine (let H := save_options_name_compression (codec := raw_codec)
                     (mixin := Versioning.mixin)
                     Example.out_parquet "pyarrow" (Some 5%positive)
                     (Some 6%positive) None Configured.world _ _ _ _ _ in
          conj (proj1 H) (proj1 (proj2 H))).
  - intros l [= <-]. apply elem_of_dom. eexists. vm_compute. reflexivity.
  - intros l [= <-]. apply elem_of_dom. eexists. vm_compute. reflexivity.
  - vm_compute; reflexivity.
Defined.

(** ** More on [_load] and [_exists] *)

(** X5: when load resolution only reads the backend, [_load] leaves the
    backend and the dictionaries as they are, calls nothing but the load
    resolution and at most once the engine's reader, and gives the same
    outcome when it is called again. The same holds of [_exists] with the
    existence probe in place of the reader. *)
Theorem load_and_exists_only_read {Payload : Type} {codec : Codec Payload}
    {mixin : FilepathVersionMixIn} `{!ReadOnlyChecks mixin}
    (self : ParquetLocalDataSet) (w : World) :
  (backend (_load self w).2 = backend w ∧
   heap (_load self w).2 = heap w ∧
   (∃ r, emitted w (_load self w).2 = [get_load_path_called r] ∨
         ∃ p ok, emitted w (_load self w).2 =
                   [get_load_path_called r;
                    read_parquet_called p (_engine self)
                      (deref (heap w) (_load_args self)) ok]) ∧
   (_load self (_load self w).2).1 = (_load self w).1) ∧
  (backend (_exists self w).2 = backend w ∧
   heap (_exists self w).2 = heap w ∧
   (∃ r, emitted w (_exists self w).2 = [get_load_path_called r] ∨
         ∃ p answer, emitted w (_exists self w).2 =
                       [get_load_path_called r; is_file_called p answer]) ∧
   (_exists self (_exists self w).2).1 = (_exists self w).1).
Proof.
  pose proof (get_load_path_reads (_filepath self) (_version self) (backend w))
    as Hro.
  split.
  - assert (Hb : backend (_load self w).2 = backend w).
    { rewrite _load_run.
      destruct (_get_load_path _ _ (backend w)) as [[p|e] b']; simpl in *;
        subst; [|done].
      destruct (read_bytes _ p) as [raw|]; [destruct (decode _ _ raw)|]; done. }
    assert (Hh := _load_heap self w).
    split; [done|]. split; [done|]. split.
    + rewrite _load_run.
      destruct (_get_load_path _ _ (backend w)) as [[p|e] b']; simpl.
      * exists (Ok p). right.
        destruct (read_bytes b' p) as [raw|]; [destruct (decode _ _ raw)|];
          (erewrite emitted_app by (simpl; reflexivity)); eauto.
      * exists (Raise e). left. by erewrite emitted_app by (simpl; reflexivity).
    + rewrite (_load_run self (_load self w).2), Hb, Hh.
      rewrite (_load_run self w).
      destruct (_get_load_path _ _ (backend w)) as [[p|e] b']; simpl; [|done].
      destruct (read_bytes b' p) as [raw|]; [destruct (decode _ _ raw)|]; done.
  - assert (Hb : backend (_exists self w).2 = backend w).
    { rewrite _exists_run.
      destruct (_get_load_path _ _ (backend w)) as [[p|e] b']; simpl in *;
        subst; [done|].
      by destruct (is_DataSetError e). }
    assert (Hh := _exists_heap self w).
    split; [done|]. split; [done|]. split.
    + rewrite _exists_run.
      destruct (_get_load_path _ _ (backend w)) as [[p|e] b']; simpl.
      * exists (Ok p). right.
        (erewrite emitted_app by (simpl; rewrite <- app_assoc; reflexivity)).
        eauto.
      * exists (Raise e). left.
        destruct (is_DataSetError e);
          by erewrite emitted_app by (simpl; reflexivity).
    + rewrite (_exists_run self (_exists self w).2), Hb, Hh.
      rewrite (_exists_run self w).
      destruct (_get_load_path _ _ (backend w)) as [[p|e] b']; simpl; [done|].
      by destruct (is_DataSetError e).
Qed.

Lemma load_and_exists_only_read_witness :
  let self := Example.dataset (Some Versions.latest) in
  let once := _load (codec := raw_codec) (mixin := Versioning.mixin)
                self Versions.world in
  once.1 = Ok Example.df2 ∧
  backend once.2 = backend Versions.world ∧
  (_load (codec := raw_codec) (mixin := Versioning.mixin) self once.2).1 = once.1.
Proof.
  intros self once. split; [vm_compute; reflexivity|].
  pose proof (load_and_exists_only_read (codec := raw_codec)
                (mixin := Versioning.mixin) self Versions.world)
    as [(Hb & _ & _ & Hagain) _].
  split; [exact Hb|exact Hagain].
Defined.



(** ** More on [_save] *)

#[global] Instance versioning_keeps_files : SavePathKeepsFiles Versioning.mixin.
Proof.
  split; intros p v b; simpl; unfold Versioning.resolve_for_save;
    by destruct v as [[lv [t|]]|].
Qed.

Lemma prefix_is_take {A} (k l : list A) :
  k `prefix_of` l → k = take (length k) l ∧ (length k ≤ length l)%nat.
Proof.
  intros [k' ->]. rewrite take_app_length, length_app. split; [done|lia].
Qed.

(** What [mkdir_from] changes: it makes directories, at places on the way
    where nothing was. *)
Lemma mkdir_from_changes m base rest m' (k : list string) :
  mkdir_from m base rest = Some m' → m' !! k ≠ m !! k →
  m !! k = None ∧ m' !! k = Some Dir ∧
  ∃ i, 0 < i ≤ length rest ∧ k = base ++ take i rest.
Proof.
  revert m base. induction rest as [|c rest IH]; intros m base; simpl.
  - by intros [= ->].
  - destruct (m !! (base ++ [c])) as [[raw|]|] eqn:Hd; [done| |].
    + intros Hmk Hne. destruct (IH _ _ Hmk Hne) as (Hnone & Hdir & i & Hi & ->).
      split; [done|]. split; [done|]. exists (S i). split; [lia|].
      simpl. by rewrite <- app_assoc.
    + intros Hmk Hne. destruct (decide (k = base ++ [c])) as [->|Hk].
      * split; [done|]. split.
        -- eapply mkdir_from_keeps; [done|]. by rewrite lookup_insert_eq.
        -- exists 1. split; [lia|]. simpl. by rewrite take_0.
      * rewrite <- (lookup_insert_ne m (base ++ [c]) k Dir) in Hne by done.
        destruct (IH _ _ Hmk Hne) as (Hnone & Hdir & i & Hi & ->).
        rewrite lookup_insert_ne in Hnone by done.
        split; [done|]. split; [done|]. exists (S i). split; [lia|].
        simpl. by rewrite <- app_assoc.
Qed.

(** A regular file on the way stops [mkdir_from]. *)
Lemma mkdir_from_blocked m base rest (i : nat) (raw : bytes) :
  0 < i ≤ length rest → m !! (base ++ take i rest) = Some (File raw) →
  mkdir_from m base rest = None.
Proof.
  revert m base i. induction rest as [|c rest IH]; intros m base i; simpl; [lia|].
  intros Hi Hfile. destruct i as [|i]; [lia|]. simpl in Hfile.
  replace (base ++ c :: take i rest) with ((base ++ [c]) ++ take i rest) in Hfile
    by (by rewrite <- app_assoc).
  destruct i as [|i].
  - rewrite take_0, app_nil_r in Hfile. by rewrite Hfile.
  - destruct (m !! (base ++ [c])) as [[raw'|]|] eqn:Hd; [done| |].
    + eapply (IH _ _ (S i)); [lia|done].
    + eapply (IH _ _ (S i)); [lia|]. rewrite lookup_insert_ne; [done|].
      intros Heq. apply (f_equal length) in Heq.
      rewrite !length_app, length_take in Heq. simpl in Hi. lia.
Qed.

Lemma mkdir_parents_frame (b b' : Backend) (p : path) (k : list string) :
  mkdir_parents b p = Some b' → fs b' !! k ≠ fs b !! k →
  fs b !! k = None ∧ fs b' !! k = Some Dir ∧ k `prefix_of` location b p.
Proof.
  unfold mkdir_parents.
  destruct (mkdir_from (fs b) [] (location b p)) as [m|] eqn:Hmk; [|done].
  simpl. intros [= <-] Hne. simpl in *.
  destruct (mkdir_from_changes _ _ _ _ k Hmk Hne) as (Hnone & Hdir & i & Hi & ->).
  split; [done|]. split; [done|]. simpl. apply prefix_take.
Qed.

Lemma mkdir_parents_dirs (b b' : Backend) (p : path) (k : list string) :
  mkdir_parents b p = Some b' → k ≠ [] → k `prefix_of` location b p →
  fs b' !! k = Some Dir.
Proof.
  unfold mkdir_parents.
  destruct (mkdir_from (fs b) [] (location b p)) as [m|] eqn:Hmk; [|done].
  simpl. intros [= <-] Hk [Heq Hlen]%prefix_is_take. simpl.
  rewrite Heq. apply (mkdir_from_dirs _ [] _ _ _ Hmk).
  destruct k; [done|]. simpl in *. lia.
Qed.

Lemma mkdir_parents_blocked (b : Backend) (p : path) (k : list string) (raw : bytes) :
  k ≠ [] → k `prefix_of` location b p → fs b !! k = Some (File raw) →
  mkdir_parents b p = None.
Proof.
  intros Hk [Heq Hlen]%prefix_is_take Hfile. unfold mkdir_parents.
  rewrite (mkdir_from_blocked _ [] _ (length k) raw); [done| |by rewrite <- Heq].
  destruct k; [done|]. simpl in *. lia.
Qed.

Lemma location_parent_prefix (b : Backend) (p : path) :
  location b (parent p) `prefix_of` location b p.
Proof.
  unfold location, absolute_from, parent. simpl.
  assert (Hrl : removelast (parts p) `prefix_of` parts p).
  { destruct (decide (parts p = [])) as [->|Hne]; [done|].
    destruct (exists_last Hne) as (l & x & ->).
    rewrite removelast_last. by apply prefix_app_r. }
  destruct (anchored p); simpl; [done|]. by apply prefix_app.
Qed.

(** X8: after a [_save] that succeeded, [_exists] answers true, with or
    without a version, for every versioning layer whose checks only read the
    backend and pass for equal paths only. *)
Theorem exists_after_save {Payload : Type} {codec : Codec Payload}
    {mixin : FilepathVersionMixIn} `{!ReadOnlyChecks mixin} `{!SoundChecks mixin}
    (self : ParquetLocalDataSet) (data : Payload) (w w' : World) :
  _save self data w = (Ok tt, w') →
  (_exists self w').1 = Ok true.
Proof.
  intros Hsave.
  destruct (save_ok self data w w' Hsave)
    as (s & b1 & b2 & raw & b3 & l & Hs & Hmk & Henc & Hwr & Hl & Hc & Hb & Hh).
  rewrite _exists_run, Hb, Hl. simpl.
  assert (Hloc : location b2 l = location b2 s).
  { rewrite !(location_cwd b3 b2) by (symmetry; by eapply write_bytes_cwd).
    apply same_location. eapply check_paths_sound. by rewrite Hc. }
  by rewrite (read_bytes_is_file _ _ _ (write_bytes_read _ _ _ _ _ Hwr Hloc)).
Qed.

Lemma exists_after_save_witness :
  let self := Example.dataset (Some Versions.latest) in
  let saved := _save (codec := raw_codec) (mixin := Versioning.mixin)
                 self Example.df1 Example.fresh_world in
  (_exists (mixin := Versioning.mixin) self Example.fresh_world).1 = Ok false ∧
  saved.1 = Ok tt ∧
  (_exists (mixin := Versioning.mixin) self saved.2).1 = Ok true.
Proof.
  intros self saved. split; [vm_compute; reflexivity|].
  split; [vm_compute; reflexivity|].
  apply (exists_after_save (codec := raw_codec) (mixin := Versioning.mixin)
           self Example.df1 Example.fresh_world saved.2).
  vm_compute; reflexivity.
Defined.

(** X9: a [_save] changes the files of the backend at most in two ways: the
    entry at the resolved save path, and new directories, on the way to its
    parent, where nothing was. Every other entry is as before, whether the
    save succeeds or fails, and so is the working directory. This holds for a
    versioning layer that itself writes nothing. *)
Theorem save_touches_only_its_path {Payload : Type} {codec : Codec Payload}
    {mixin : FilepathVersionMixIn}
    `{!ReadOnlyChecks mixin} `{!SavePathKeepsFiles mixin}
    (self : ParquetLocalDataSet) (data : Payload) (w : World) :
  let b := backend w in
  let b' := backend (_save self data w).2 in
  cwd b' = cwd b ∧
  (∀ e, (_get_save_path (_filepath self) (_version self) b).1 = Raise e →
        fs b' = fs b) ∧
  (∀ s k, (_get_save_path (_filepath self) (_version self) b).1 = Ok s →
          fs b' !! k ≠ fs b !! k →
          k = location b s ∨
          (fs b !! k = None ∧ fs b' !! k = Some Dir ∧
           k `prefix_of` location b (parent s))).
Proof.
  intros b b'. subst b b'.
  pose proof (get_save_path_fs (_filepath self) (_version self) (backend w)) as Hfs.
  pose proof (get_save_path_cwd (_filepath self) (_version self) (backend w)) as Hcwd.
  destruct (_save_run self data w) as
    [e b1 Hs|s b1 Hs Hmk|s b1 b2 Hs Hmk Henc|s b1 b2 raw Hs Hmk Henc Hwr
    |s b1 b2 raw b3 e b4 Hs Hmk Henc Hwr Hl
    |s b1 b2 raw b3 l b4 r b5 Hs Hmk Henc Hwr Hl Hc];
    rewrite Hs in *; simpl in *.
  - split; [done|]. split; [by intros|]. by intros s k [=].
  - split; [done|]. split; [by intros e [=]|].
    intros s' k [= <-] Hne. by rewrite Hfs in Hne.
  - split; [by rewrite (mkdir_parents_cwd _ _ _ Hmk)|].
    split; [by intros e [=]|]. intros s' k [= <-] Hne. right.
    rewrite <- Hfs in Hne |- *. rewrite (location_cwd b1 (backend w)) by done.
    by eapply mkdir_parents_frame.
  - split; [by rewrite (mkdir_parents_cwd _ _ _ Hmk)|].
    split; [by intros e [=]|]. intros s' k [= <-] Hne. right.
    rewrite <- Hfs in Hne |- *. rewrite (location_cwd b1 (backend w)) by done.
    by eapply mkdir_parents_frame.
  - pose proof (get_load_path_reads (_filepath self) (_version self) b3) as Hro.
    rewrite Hl in Hro. simpl in Hro. subst b4.
    pose proof (mkdir_parents_cwd _ _ _ Hmk) as Hc2.
    apply write_bytes_inv in Hwr as (_ & _ & _ & ->). simpl.
    split; [congruence|]. split; [by intros e' [=]|].
    intros s' k [= <-] Hne.
    rewrite (location_cwd (backend w) b2) in Hne |- * by congruence.
    destruct (decide (k = location (backend w) s)) as [->|Hk]; [by left|right].
    rewrite lookup_insert_ne in Hne |- * by done.
    rewrite <- Hfs in Hne |- *. rewrite (location_cwd b1 (backend w)) by done.
    by eapply mkdir_parents_frame.
  - pose proof (get_load_path_reads (_filepath self) (_version self) b3) as Hro.
    rewrite Hl in Hro. simpl in Hro. subst b4.
    match type of Hc with
    | _check_paths_consistency ?la ?sa _ = _ =>
        pose proof (check_paths_reads la sa b3) as Hro
    end.
    rewrite Hc in Hro. simpl in Hro. subst b5.
    pose proof (mkdir_parents_cwd _ _ _ Hmk) as Hc2.
    apply write_bytes_inv in Hwr as (_ & _ & _ & ->). simpl.
    split; [congruence|]. split; [by intros e' [=]|].
    intros s' k [= <-] Hne.
    rewrite (location_cwd (backend w) b2) in Hne |- * by congruence.
    destruct (decide (k = location (backend w) s)) as [->|Hk]; [by left|right].
    rewrite lookup_insert_ne in Hne |- * by done.
    rewrite <- Hfs in Hne |- *. rewrite (location_cwd b1 (backend w)) by done.
    by eapply mkdir_parents_frame.
Qed.

Lemma save_touches_only_its_path_witness :
  let self := Example.dataset (Some Versions.latest) in
  let saved := _save (codec := raw_codec) (mixin := Versioning.mixin)
                 self Example.df1 Versions.world in
  let older := ["home"; "kedro"; "data"; "00000000001551398400"; "out.parquet"] in
  saved.1 = Ok tt ∧
  fs (backend saved.2) !! older = Some (File Example.df2).
Proof.
  intros self saved older. split; [vm_compute; reflexivity|].
  destruct (decide (fs (backend saved.2) !! older
                    = fs (backend Versions.world) !! older)) as [Heq|Hne].
  - rewrite Heq. vm_compute; reflexivity.
  - exfalso.
    destruct (proj2 (proj2 (save_touches_only_its_path (codec := raw_codec)
                (mixin := Versioning.mixin) self Example.df1 Versions.world))
                (mk_path false ["data"; "00000000001554076800"; "out.parquet"])
                older) as [H|[H _]].
    + vm_compute; reflexivity.
    + exact Hne.
    + vm_compute in H. discriminate H.
    + vm_compute in H. discriminate H.
Defined.

(** X10: after a [_save] that succeeded, the resolved save path is a regular
    file and every directory on the way to it exists, whether it was there
    before or not. *)
Theorem save_creates_the_directories {Payload : Type} {codec : Codec Payload}
    {mixin : FilepathVersionMixIn} `{!ReadOnlyChecks mixin}
    (self : ParquetLocalDataSet) (data : Payload) (w w' : World) (s : path) :
  (_get_save_path (_filepath self) (_version self) (backend w)).1 = Ok s →
  _save self data w = (Ok tt, w') →
  is_regular_file (backend w') s = true ∧
  ∀ k, k ≠ [] → k `prefix_of` location (backend w') (parent s) →
       fs (backend w') !! k = Some Dir.
Proof.
  intros Hres Hsave.
  destruct (save_ok self data w w' Hsave)
    as (s' & b1 & b2 & raw & b3 & l & Hs & Hmk & Henc & Hwr & Hl & Hc & Hb & Hh).
  rewrite Hs in Hres. simpl in Hres. injection Hres as ->. rewrite Hb.
  split.
  - eapply read_bytes_is_file. by eapply write_bytes_read.
  - intros k Hk Hpre. eapply write_bytes_dirs; [done|].
    eapply mkdir_parents_dirs; [done|done|].
    rewrite (location_cwd b3 b1); [done|]. symmetry.
    rewrite (write_bytes_cwd _ _ _ _ Hwr). by eapply mkdir_parents_cwd.
Qed.

Lemma save_creates_the_directories_witness :
  let self := Example.dataset (Some Pinned.v1) in
  Pinned.first.1 = Ok tt ∧
  fs (backend Example.fresh_world) !! ["home"; "kedro"; "data"; "v1"] = None ∧
  fs (backend Pinned.first.2) !! ["home"; "kedro"; "data"; "v1"] = Some Dir ∧
  is_regular_file (backend Pinned.first.2) Pinned.saved = true.
Proof.
  intros self. split; [vm_compute; reflexivity|].
  split; [vm_compute; reflexivity|].
  destruct (save_creates_the_directories (codec := raw_codec)
              (mixin := Versioning.mixin) self Example.df1
              Example.fresh_world Pinned.first.2 Pinned.saved)
    as [Hfile Hdirs].
  - vm_compute; reflexivity.
  - vm_compute; reflexivity.
  - split; [|exact Hfile]. apply Hdirs; [discriminate|].
    exists []. vm_compute. reflexivity.
Defined.

(** X11: when a regular file is on the way to the parent of the resolved save
    path, [_save] fails with a storage access error at that parent, right
    after the save resolution: nothing is created, the engine's writer is not
    called, and the backend is as the resolution left it. *)
Theorem save_blocked_by_a_file {Payload : Type} {codec : Codec Payload}
    {mixin : FilepathVersionMixIn}
    (self : ParquetLocalDataSet) (data : Payload) (w : World)
    (s : path) (b1 : Backend) (k : list string) (raw : bytes) :
  _get_save_path (_filepath self) (_version self) (backend w) = (Ok s, b1) →
  k ≠ [] → k `prefix_of` location b1 (parent s) →
  fs b1 !! k = Some (File raw) →
  (_save self data w).1 = Raise (StorageAccessError (parent s)) ∧
  backend (_save self data w).2 = b1 ∧
  emitted w (_save self data w).2 =
    [get_save_path_called (Ok s); mkdir_called (parent s) false].
Proof.
  intros Hres Hk Hpre Hfile.
  pose proof (mkdir_parents_blocked _ _ _ _ Hk Hpre Hfile) as Hblocked.
  destruct (_save_run self data w) as
    [e c1 Hs|s' c1 Hs Hmk|s' c1 c2 Hs Hmk Henc|s' c1 c2 raw' Hs Hmk Henc Hwr
    |s' c1 c2 raw' c3 e c4 Hs Hmk Henc Hwr Hl
    |s' c1 c2 raw' c3 l c4 r c5 Hs Hmk Henc Hwr Hl Hc];
    rewrite Hres in Hs; simplify_eq.
  split; [done|]. split; [done|]. by apply emitted_app.
Qed.

Lemma save_blocked_by_a_file_witness :
  let run := _save (codec := raw_codec) (mixin := Versioning.mixin)
               (Example.dataset None) Example.df2 Blocked.world in
  run.1 = Raise (StorageAccessError (mk_path false ["data"])) ∧
  backend run.2 = backend Blocked.world.
Proof.
  intros run.
  destruct (save_blocked_by_a_file (codec := raw_codec)
              (mixin := Versioning.mixin) (Example.dataset None) Example.df2
              Blocked.world Example.out_parquet (backend Blocked.world)
              ["home"; "kedro"; "data"] Example.df1)
    as (Hr & Hb & _).
  - reflexivity.
  - discriminate.
  - exists []. vm_compute. reflexivity.
  - vm_compute; reflexivity.
  - split; [exact Hr|exact Hb].
Defined.


